(** * A verification model of the Stable Diffusion FastAPI server (app.py)

    The server is a single Python module: environment-driven settings, two
    optional diffusers pipelines loaded at start-up, five HTTP endpoints
    and one [asyncio.Lock] named [gpu_lock].

    The development has two views of the same handlers.

    - A sequential view: every handler is a computation in a small
      state-and-exception monad over a [World] (files on disk, the
      [uuid4()] and [time.time()] draws made so far, the log of pipeline
      invocations).  What the process cannot decide by itself (what the
      pipelines return, the random bits, the clock, the PNG codec, disk
      errors) is gathered in the class [Externals].
    - An event-loop view: every handler is the sequence of its lock and
      pipeline events with the places where the coroutine can be
      suspended, interleaved by a single-threaded asyncio loop. *)

From Stdlib Require Import ZArith NArith Floats Ascii String List Lia.
From Stdlib.Strings Require Import Byte.
From stdpp Require Import base option list gmap strings pretty.

Local Open Scope string_scope.
Local Open Scope Z_scope.

(** ** Python strings and paths *)

Module Py.

(** [str.lower()] on the ASCII range.  The only use is the membership
    test of [get_env_bool] against ASCII words. *)
Definition lower_char (c : ascii) : ascii :=
  let n := N_of_ascii c in
  if ((65 <=? n) && (n <=? 90))%N then ascii_of_N (n + 32) else c.

Fixpoint lower (s : string) : string :=
  match s with
  | EmptyString => EmptyString
  | String c s' => String (lower_char c) (lower s')
  end.

(** [str(b)] for a [bool]. *)
Definition str_bool (b : bool) : string := if b then "True" else "False".

(** [x in l] for a list of strings. *)
Definition str_in (x : string) (l : list string) : bool :=
  existsb (String.eqb x) l.

(** [s.startswith("/")]. *)
Definition is_absolute (s : string) : bool :=
  match s with
  | String "/" _ => true
  | _ => false
  end.

(** [s.endswith("/")]. *)
Fixpoint ends_with_sep (s : string) : bool :=
  match s with
  | EmptyString => false
  | String c EmptyString => Ascii.eqb c "/"
  | String _ s' => ends_with_sep s'
  end.

(** [posixpath.join(a, b)]: an absolute [b] replaces [a]; otherwise the
    two are joined with one separator unless [a] is empty or already
    ends with one. *)
Definition path_join (a b : string) : string :=
  if is_absolute b then b
  else match a with
       | EmptyString => b
       | _ => if ends_with_sep a then a +:+ b else a +:+ "/" +:+ b
       end.

End Py.

(** ** Environment variables and settings (app.py 42-59, 77) *)

Definition get_env_bool (environ : gmap string string)
    (var_name : string) (default : bool) : bool :=
  let value :=
    match environ !! var_name with
    | Some v => v
    | None => Py.str_bool default
    end in
  Py.str_in (Py.lower value) ["1"; "true"; "yes"].

Record Settings := {
  MODEL_NAME : string;
  ENABLE_TXT2IMG : bool;
  ENABLE_IMG2IMG : bool;
  XFORMERS_ENABLED : bool;
  (** [str(device)]: ["cuda"] when [torch.cuda.is_available()], else ["cpu"] *)
  device : string;
}.

Definition read_settings (environ : gmap string string)
    (cuda_is_available : bool) : Settings :=
  {| MODEL_NAME :=
       match environ !! "MODEL_NAME" with
       | Some v => v
       | None => "stabilityai/sdxl-turbo"
       end;
     ENABLE_TXT2IMG := get_env_bool environ "ENABLE_TXT2IMG" true;
     ENABLE_IMG2IMG := get_env_bool environ "ENABLE_IMG2IMG" true;
     XFORMERS_ENABLED := get_env_bool environ "XFORMERS_ENABLED" false;
     device := if cuda_is_available then "cuda" else "cpu" |}.

Definition IMAGE_DIR : string := "uploaded_images".

(** ** The pipeline references (app.py 83-117)

    The two module-level references are [None] or a loaded pipeline; what a
    loaded pipeline computes is external, so a reference is modelled by
    whether it is set. *)

Record Pipelines := {
  txt2img_pipeline : bool;
  img2img_pipeline : bool;
}.

(** [load_models]: nothing is loaded when both capabilities are off; a
    failing [from_pretrained] aborts start-up with a [RuntimeError]. *)
Definition load_models (s : Settings) (from_pretrained_error : option string)
    : string + Pipelines :=
  if ENABLE_TXT2IMG s || ENABLE_IMG2IMG s then
    match from_pretrained_error with
    | Some e => inl ("Failed to initialize model: " +:+ e)
    | None => inr {| txt2img_pipeline := ENABLE_TXT2IMG s;
                     img2img_pipeline := ENABLE_IMG2IMG s |}
    end
  else inr {| txt2img_pipeline := false; img2img_pipeline := false |}.

(** The state the handlers read but never write. *)
Record App := {
  settings : Settings;
  pipelines : Pipelines;
}.

(** ** [str(uuid4())] *)

Module Uuid.

Definition hex_char (d : N) : ascii :=
  match d with
  | 0 => "0" | 1 => "1" | 2 => "2" | 3 => "3" | 4 => "4" | 5 => "5"
  | 6 => "6" | 7 => "7" | 8 => "8" | 9 => "9" | 10 => "a" | 11 => "b"
  | 12 => "c" | 13 => "d" | 14 => "e" | _ => "f"
  end%N%char.

(** The [k] lowest hexadecimal digits of [n], most significant first. *)
Fixpoint hex_from (k : nat) (n : N) : string :=
  match k with
  | O => EmptyString
  | S k' =>
      String (hex_char (N.land (N.shiftr n (4 * N.of_nat k')) 15))
             (hex_from k' n)
  end.

(** [UUID(bytes=os.urandom(16), version=4)]: the 128 random bits with the
    RFC 4122 variant and the version number written over them. *)
Definition uuid4 (random_bits : N) : N :=
  let int := (random_bits mod 2 ^ 128)%N in
  let int := N.ldiff int (N.shiftl 0xc000 48) in
  let int := N.lor int (N.shiftl 0x8000 48) in
  let int := N.ldiff int (N.shiftl 0xf000 64) in
  N.lor int (N.shiftl 4 76).

(** [str(u)]: 32 hexadecimal digits grouped 8-4-4-4-12. *)
Definition str (u : N) : string :=
  let hex := hex_from 32 u in
  substring 0 8 hex +:+ "-" +:+ substring 8 4 hex +:+ "-" +:+
  substring 12 4 hex +:+ "-" +:+ substring 16 4 hex +:+ "-" +:+
  substring 20 12 hex.

End Uuid.

Arguments Uuid.str : simpl never.
Arguments Uuid.uuid4 : simpl never.

(** ** Request models (app.py 123-143)

    Each pydantic model comes with the record of the fields found in the
    request body, where a field the class gives a default may be absent,
    and with the construction that fills the defaults in. *)

Module Txt2ImgInput.
Record body := {
  body_prompt : string;
  body_negative_prompt : option string;
  body_num_inference_steps : option Z;
  body_guidance_scale : option float;
}.
Record t := {
  prompt : string;
  negative_prompt : string;
  num_inference_steps : Z;
  guidance_scale : float;
}.
Definition of_body (b : body) : t :=
  {| prompt := body_prompt b;
     negative_prompt := default "" (body_negative_prompt b);
     num_inference_steps := default 4 (body_num_inference_steps b);
     guidance_scale := default 7.5%float (body_guidance_scale b) |}.
End Txt2ImgInput.

Module Img2ImgInput.
Record body := {
  body_prompt : string;
  body_negative_prompt : option string;
  body_file_id : string;
  body_num_inference_steps : option Z;
  body_strength : option float;
  body_guidance_scale : option float;
}.
Record t := {
  prompt : string;
  negative_prompt : string;
  file_id : string;
  num_inference_steps : Z;
  strength : float;
  guidance_scale : float;
}.
Definition of_body (b : body) : t :=
  {| prompt := body_prompt b;
     negative_prompt := default "" (body_negative_prompt b);
     file_id := body_file_id b;
     num_inference_steps := default 4 (body_num_inference_steps b);
     strength := default 0.5%float (body_strength b);
     guidance_scale := default 7.5%float (body_guidance_scale b) |}.
End Img2ImgInput.

Module ImageGenerationRequest.
Record body := {
  body_prompt : string;
  body_n : option Z;
  body_size : option string;
  body_response_format : option string;
}.
Record t := {
  prompt : string;
  n : Z;
  size : string;
  response_format : string;
}.
Definition of_body (b : body) : t :=
  {| prompt := body_prompt b;
     n := default 1 (body_n b);
     size := default "512x512" (body_size b);
     response_format := default "url" (body_response_format b) |}.
End ImageGenerationRequest.

(** ** JSON values, exceptions and handler results *)

Inductive Json :=
| JStr (s : string)
| JInt (z : Z)
| JBool (b : bool).

(** A dict literal with string keys, in insertion order. *)
Definition Dict : Type := list (string * Json).

(** [d.get(key)] *)
Fixpoint dict_get (key : string) (d : Dict) : option Json :=
  match d with
  | [] => None
  | (k, v) :: rest => if String.eqb key k then Some v else dict_get key rest
  end.

Inductive Exn :=
| HTTPException (status_code : Z) (detail : string)
| Exception (message : string).

(** [str(e)].  Only plain exceptions are ever raised inside the handlers'
    [try] blocks; for an [HTTPException] this is Starlette's rendering. *)
Definition str_exn (e : Exn) : string :=
  match e with
  | Exception message => message
  | HTTPException status_code detail => pretty status_code +:+ ": " +:+ detail
  end.

Inductive Outcome (A : Type) :=
| Return (a : A)
| Raise (e : Exn).
Arguments Return {A} a.
Arguments Raise {A} e.

(** ** Keyword arguments of the two pipelines

    A keyword the call site does not pass is [None]: the pipeline then
    uses its own default, which the server does not know. *)

Record Txt2ImgKwargs := {
  t2i_prompt : string;
  t2i_negative_prompt : option string;
  t2i_num_inference_steps : Z;
  t2i_guidance_scale : float;
  t2i_num_images_per_prompt : option Z;
}.

Record Img2ImgKwargs (Image : Type) := {
  i2i_prompt : string;
  i2i_negative_prompt : string;
  i2i_image : Image;
  i2i_num_inference_steps : Z;
  i2i_strength : float;
  i2i_guidance_scale : float;
}.
Arguments i2i_prompt {Image} _.
Arguments i2i_negative_prompt {Image} _.
Arguments i2i_image {Image} _.
Arguments i2i_num_inference_steps {Image} _.
Arguments i2i_strength {Image} _.
Arguments i2i_guidance_scale {Image} _.

Inductive Invocation (Image : Type) :=
| CallTxt2Img (kwargs : Txt2ImgKwargs)
| CallImg2Img (kwargs : Img2ImgKwargs Image).
Arguments CallTxt2Img {Image} kwargs.
Arguments CallImg2Img {Image} kwargs.

(** The two locks a handler can take: the module-level [gpu_lock]
    (app.py 81) and a lock object the request creates for itself
    ([asyncio.Lock()] at app.py 285). *)
Inductive LockRef := GpuLock | OwnLock.

(** What a handler does that matters to the other requests, in order. *)
Inductive Event (Image : Type) :=
| EvAcquire (l : LockRef)            (* entering [async with l] *)
| EvRelease (l : LockRef)            (* leaving it, normally or not *)
| EvCall (call : Invocation Image)   (* the pipeline starts running *)
| EvDone                             (* the pipeline returned or raised *)
| EvAwait.                           (* awaiting input or output *)
Arguments EvAcquire {Image} l.
Arguments EvRelease {Image} l.
Arguments EvCall {Image} call.
Arguments EvDone {Image}.
Arguments EvAwait {Image}.

(** ** Everything outside the process *)

Class Externals := {
  (** a decoded picture ([PIL.Image.Image]) *)
  Image : Type;
  (** what the text-to-image pipeline does on the [k]-th pipeline
      invocation of the process: it raises (message) or returns
      [result.images] *)
  txt2img_model : nat -> Txt2ImgKwargs -> string + list Image;
  img2img_model : nat -> Img2ImgKwargs Image -> string + list Image;
  (** the 16 random bytes behind the [k]-th [uuid4()] *)
  urandom16 : nat -> N;
  (** [int(time.time())] at the [k]-th reading of the clock *)
  time_time : nat -> Z;
  (** [image.save(_, format="PNG")] *)
  png_bytes : Image -> list byte;
  (** [Image.open(_).convert("RGB")] on a file's content *)
  image_open_rgb : list byte -> string + Image;
  (** [base64.b64encode(_).decode("utf-8")] *)
  b64encode : list byte -> string;
  (** whether the [k]-th attempt to write a file fails, and how *)
  write_error : nat -> option string;
}.

Section Handlers.
Context `{Ext : Externals}.

Record World := {
  (** file content by path *)
  files : gmap string (list byte);
  uuid_draws : nat;
  clock_reads : nat;
  write_attempts : nat;
  (** events so far, oldest first *)
  trace : list (Event Image);
}.

Definition call_of (ev : Event Image) : option (Invocation Image) :=
  match ev with
  | EvCall call => Some call
  | _ => None
  end.

(** The pipeline invocations made so far. *)
Definition invocations (w : World) : list (Invocation Image) :=
  omap call_of (trace w).

Definition log (ev : list (Event Image)) (w : World) : World :=
  {| files := files w; uuid_draws := uuid_draws w;
     clock_reads := clock_reads w; write_attempts := write_attempts w;
     trace := trace w ++ ev |}.

(** *** The handler monad: state and exceptions *)

Definition Handler (A : Type) : Type := World -> Outcome A * World.

#[export] Instance handler_ret : MRet Handler :=
  fun A a w => (Return a, w).

#[export] Instance handler_bind : MBind Handler :=
  fun A B f m w =>
    match m w with
    | (Return a, w') => f a w'
    | (Raise e, w') => (Raise e, w')
    end.

Definition raise {A : Type} (e : Exn) : Handler A :=
  fun w => (Raise e, w).

(** [try: body  except Exception as e: handler(e)] *)
Definition try_except {A : Type} (body : Handler A)
    (handler : Exn -> Handler A) : Handler A :=
  fun w =>
    match body w with
    | (Return a, w') => (Return a, w')
    | (Raise e, w') => handler e w'
    end.

Definition emit (ev : list (Event Image)) : Handler unit :=
  fun w => (Return tt, log ev w).

(** [async with lock: body]: the lock is released on the way out, also
    when [body] raises. *)
Definition async_with {A : Type} (l : LockRef) (body : Handler A)
    : Handler A :=
  fun w =>
    let (r, w') := body (log [EvAcquire l] w) in
    (r, log [EvRelease l] w').

(** [str(uuid4())] *)
Definition uuid4_str : Handler string :=
  fun w =>
    (Return (Uuid.str (Uuid.uuid4 (urandom16 (uuid_draws w)))),
     {| files := files w; uuid_draws := S (uuid_draws w);
        clock_reads := clock_reads w; write_attempts := write_attempts w;
        trace := trace w |}).

(** [int(time.time())] *)
Definition int_time : Handler Z :=
  fun w =>
    (Return (time_time (clock_reads w)),
     {| files := files w; uuid_draws := uuid_draws w;
        clock_reads := S (clock_reads w);
        write_attempts := write_attempts w; trace := trace w |}).

(** [os.path.exists(path)].  A file is looked up under the path string
    as it is written: this is what the file system does for a path
    whose components are plain names, and not for one with ".", ".." or
    empty components, which the file system resolves first. *)
Definition os_path_exists (path : string) : Handler bool :=
  fun w => (Return (bool_decide (is_Some (files w !! path))), w).

(** Writing [content] to [path].  A failed attempt leaves the files as
    they were, as when the file cannot be opened; a write that fails
    after the file was opened leaves a created or truncated file
    behind, which is not modelled, so nothing below speaks of the
    content of a file after a failed write. *)
Definition write_file (path : string) (content : list byte) : Handler unit :=
  fun w =>
    match write_error (write_attempts w) with
    | Some message =>
        (Raise (Exception message),
         {| files := files w; uuid_draws := uuid_draws w;
            clock_reads := clock_reads w;
            write_attempts := S (write_attempts w); trace := trace w |})
    | None =>
        (Return tt,
         {| files := <[path := content]> (files w);
            uuid_draws := uuid_draws w; clock_reads := clock_reads w;
            write_attempts := S (write_attempts w); trace := trace w |})
    end.

(** [Image.open(path).convert("RGB")].  The handler has just seen the
    path exist, so the first branch is there for totality only. *)
Definition image_open (path : string) : Handler Image :=
  fun w =>
    match files w !! path with
    | None => (Raise (Exception "No such file or directory"), w)
    | Some content =>
        match image_open_rgb content with
        | inl message => (Raise (Exception message), w)
        | inr image => (Return image, w)
        end
    end.

(** What the pipeline behind [call] does when it is the [k]-th
    invocation. *)
Definition run_pipeline (k : nat) (call : Invocation Image)
    : string + list Image :=
  match call with
  | CallTxt2Img kwargs => txt2img_model k kwargs
  | CallImg2Img kwargs => img2img_model k kwargs
  end.

(** A call of a pipeline: synchronous, so its start and its end are
    logged with nothing in between. *)
Definition invoke (call : Invocation Image) : Handler (list Image) :=
  fun w =>
    match run_pipeline (length (invocations w)) call with
    | inl message => (Raise (Exception message), log [EvCall call; EvDone] w)
    | inr images => (Return images, log [EvCall call; EvDone] w)
    end.

(** [images[0]] *)
Definition first_image (images : list Image) : Handler Image :=
  match images with
  | image :: _ => mret image
  | [] => raise (Exception "list index out of range")
  end.

(** A comprehension [[f(x) for x in xs]] whose body has effects. *)
Fixpoint for_each {A B : Type} (f : A -> Handler B) (xs : list A)
    : Handler (list B) :=
  match xs with
  | [] => mret []
  | x :: rest => y ← f x; ys ← for_each f rest; mret (y :: ys)
  end.

End Handlers.

(** ** Helpers and endpoints (app.py 161-332)

    The handlers follow the source line by line.  Two things have no
    counterpart here: the context managers [autocast] and
    [torch.no_grad], which change the numerics inside the pipeline only,
    and the calls of [logger]. *)

Inductive Returned :=
| StreamingResponse (content : list (list byte)) (media_type : string)
    (content_disposition : string)
| JsonResponse (body : Dict)          (* [return {...}] *)
| DataResponse (data : list Dict).    (* [return {"data": responses}] *)

(** What the framework sends for a handler's outcome: the status code,
    and the JSON error body of an [HTTPException]. *)
Definition http_status (o : Outcome Returned) : Z :=
  match o with
  | Return _ => 200
  | Raise (HTTPException status_code _) => status_code
  | Raise (Exception _) => 500
  end.

Definition http_error_body (o : Outcome Returned) : option Dict :=
  match o with
  | Raise (HTTPException _ detail) => Some [("detail", JStr detail)]
  | _ => None
  end.

(** The loop of [stream_image]: read [chunk_size] bytes until none is
    left.  Every round consumes a byte, so [length data] rounds suffice. *)
Fixpoint read_chunks (rounds chunk_size : nat) (data : list byte)
    : list (list byte) :=
  match rounds with
  | O => []
  | S rounds' =>
      match take chunk_size data with
      | [] => []
      | chunk => chunk :: read_chunks rounds' chunk_size (drop chunk_size data)
      end
  end.

Section Endpoints.
Context `{Ext : Externals}.
Variable app : App.

Definition stream_image (image : Image) : list (list byte) :=
  let img_byte_arr := png_bytes image in
  let chunk_size := 1024%nat in
  read_chunks (length img_byte_arr) chunk_size img_byte_arr.

(** The only caller passes [str(uuid4())] for [file_id].  For such an
    identifier [output_dir / f"{file_id}.png"] is the plain
    concatenation and PIL takes the format from the ending ".png". *)
Definition save_image_and_get_url (image : Image) (file_id : string)
    : Handler string :=
  let output_dir := "output_images" in
  let file_path := Py.path_join output_dir (file_id +:+ ".png") in
  write_file file_path (png_bytes image);;
  mret ("/output_images/" +:+ file_id +:+ ".png").

Definition encode_image_to_base64 (image : Image) : Handler string :=
  mret (b64encode (png_bytes image)).

Definition txt2img (input_data : Txt2ImgInput.t) : Handler Returned :=
  if negb (ENABLE_TXT2IMG (settings app))
     || negb (txt2img_pipeline (pipelines app))
  then raise (HTTPException 400 "txt2img is disabled on this server.")
  else
    try_except
      (image ← async_with GpuLock
         (result ← invoke (CallTxt2Img
            {| t2i_prompt := Txt2ImgInput.prompt input_data;
               t2i_negative_prompt :=
                 Some (Txt2ImgInput.negative_prompt input_data);
               t2i_num_inference_steps :=
                 Txt2ImgInput.num_inference_steps input_data;
               t2i_guidance_scale := Txt2ImgInput.guidance_scale input_data;
               t2i_num_images_per_prompt := None |});
          first_image result);
       name ← uuid4_str;
       mret (StreamingResponse (stream_image image) "image/png"
               ("attachment; filename=" +:+ name +:+ ".png")))
      (fun e => raise (HTTPException 500 (str_exn e))).

Definition upload_image (file : list byte) : Handler Returned :=
  try_except
    (file_uuid ← uuid4_str;
     let filepath := Py.path_join IMAGE_DIR (file_uuid +:+ ".png") in
     emit [EvAwait];;
     let file_content := file in
     write_file filepath file_content;;
     mret (JsonResponse [("file_id", JStr file_uuid)]))
    (fun e => raise (HTTPException 500 (str_exn e))).

Definition img2img (input_data : Img2ImgInput.t) : Handler Returned :=
  if negb (ENABLE_IMG2IMG (settings app))
     || negb (img2img_pipeline (pipelines app))
  then raise (HTTPException 400 "img2img is disabled on this server.")
  else
    let filepath :=
      Py.path_join IMAGE_DIR (Img2ImgInput.file_id input_data +:+ ".png") in
    found ← os_path_exists filepath;
    if negb found
    then raise (HTTPException 404 "Uploaded file not found on disk.")
    else
      pil_image ← image_open filepath;
      try_except
        (image ← async_with GpuLock
           (result ← invoke (CallImg2Img
              {| i2i_prompt := Img2ImgInput.prompt input_data;
                 i2i_negative_prompt :=
                   Img2ImgInput.negative_prompt input_data;
                 i2i_image := pil_image;
                 i2i_num_inference_steps :=
                   Img2ImgInput.num_inference_steps input_data;
                 i2i_strength := Img2ImgInput.strength input_data;
                 i2i_guidance_scale :=
                   Img2ImgInput.guidance_scale input_data |});
            first_image result);
         name ← uuid4_str;
         mret (StreamingResponse (stream_image image) "image/png"
                 ("attachment; filename=" +:+ name +:+ ".png")))
        (fun e => raise (HTTPException 500 (str_exn e))).

Definition generate_images (request : ImageGenerationRequest.t)
    : Handler Returned :=
  if negb (ENABLE_TXT2IMG (settings app))
     || negb (txt2img_pipeline (pipelines app))
  then raise (HTTPException 503 "Text-to-Image generation is unavailable.")
  else
    try_except
      (images ← async_with OwnLock
         (invoke (CallTxt2Img
            {| t2i_prompt := ImageGenerationRequest.prompt request;
               t2i_negative_prompt := None;
               t2i_num_inference_steps := 30;
               t2i_guidance_scale := 7.5%float;
               t2i_num_images_per_prompt :=
                 Some (ImageGenerationRequest.n request) |}));
       id ← uuid4_str;
       responses ←
         (if String.eqb (ImageGenerationRequest.response_format request) "url"
          then
            for_each
              (fun image =>
                 created ← int_time;
                 url ← save_image_and_get_url image id;
                 mret [("id", JStr id); ("object", JStr "image");
                       ("created", JInt created); ("url", JStr url)])
              images
          else
            for_each
              (fun image =>
                 created ← int_time;
                 b64_json ← encode_image_to_base64 image;
                 mret [("id", JStr id); ("object", JStr "image");
                       ("created", JInt created);
                       ("b64_json", JStr b64_json)])
              images);
       mret (DataResponse responses))
      (fun e => raise (HTTPException 500 "Internal server error.")).

Definition health_check : Handler Returned :=
  mret (JsonResponse
          [("status", JStr "ok");
           ("device", JStr (device (settings app)));
           ("model", JStr (MODEL_NAME (settings app)));
           ("enable_txt2img", JBool (ENABLE_TXT2IMG (settings app)));
           ("enable_img2img", JBool (ENABLE_IMG2IMG (settings app)))]).

(** The requests the server answers, and the handler each one reaches
    once its body has been validated. *)
Inductive Request :=
| PostTxt2Img (body : Txt2ImgInput.body)
| PostUpload (file : list byte)
| PostImg2Img (body : Img2ImgInput.body)
| PostGenerations (body : ImageGenerationRequest.body)
| GetHealth.

Definition serve (r : Request) : Handler Returned :=
  match r with
  | PostTxt2Img body => txt2img (Txt2ImgInput.of_body body)
  | PostUpload file => upload_image file
  | PostImg2Img body => img2img (Img2ImgInput.of_body body)
  | PostGenerations body =>
      generate_images (ImageGenerationRequest.of_body body)
  | GetHealth => health_check
  end.

(** Requests handled one after the other. *)
Fixpoint serve_all (rs : list Request) (w : World) : World :=
  match rs with
  | [] => w
  | r :: rest => serve_all rest (serve r w).2
  end.

End Endpoints.

(** ** The event loop

    All five handlers are [async def], so they run on the one thread of
    the asyncio loop: the loop resumes one task, the task runs until it
    has to wait (for input or output, or for a lock that is taken), and
    only then can another task run.  What the framework awaits around a
    handler (reading the body, the logging middleware, sending the
    response) involves no pipeline and is left out. *)

Module Loop.

(** [asyncio.Lock]: a flag and the queue of the tasks waiting for it. *)
Record Lock := {
  locked : bool;
  waiters : list nat;
}.

Definition fresh_lock : Lock := {| locked := false; waiters := [] |}.

(** [await lock.acquire()] by task [i]: taken at once when the lock is
    free and nobody waits; otherwise the task joins the queue. *)
Definition acquire (i : nat) (l : Lock) : Lock * bool :=
  if negb (locked l) && bool_decide (waiters l = [])
  then ({| locked := true; waiters := waiters l |}, true)
  else ({| locked := locked l; waiters := waiters l ++ [i] |}, false).

(** What a woken task does when it runs again inside [acquire]. *)
Definition resume_acquire (i : nat) (l : Lock) : Lock :=
  {| locked := true; waiters := filter (fun j => j ≠ i) (waiters l) |}.

(** [lock.release()]: frees the lock and wakes the first waiter. *)
Definition release (l : Lock) : Lock * option nat :=
  if locked l
  then ({| locked := false; waiters := waiters l |}, head (waiters l))
  else (l, None).

Inductive Status :=
| Ready
| LockWait (woken : bool)
| IOWait
| Finished.

Definition runnable (st : Status) : bool :=
  match st with
  | Ready | LockWait true => true
  | _ => false
  end.

Section WithExternals.
Context `{Ext : Externals}.
Variable app : App.

Record Task := {
  (** the events the handler has still to go through *)
  code : list (Event Image);
  status : Status;
  (** between the start and the end of a pipeline call *)
  in_pipeline : bool;
  own_lock : Lock;
}.

Record State := {
  tasks : list Task;
  (** the task the loop is running, if any *)
  current : option nat;
  gpu_lock : Lock;
}.

Definition idle : State :=
  {| tasks := []; current := None; gpu_lock := fresh_lock |}.

(** The events of the handler of [r] when it runs from world [w]. *)
Definition handler_events (r : Request) (w : World) : list (Event Image) :=
  drop (length (trace w)) (trace (serve app r w).2).

Definition new_task (events : list (Event Image)) : Task :=
  {| code := events; status := Ready; in_pipeline := false;
     own_lock := fresh_lock |}.

(** What can happen next.  The world a handler will find when it runs is
    not known when its request arrives, so an arrival may come with any
    world: the handler takes the path it would take from that one. *)
Inductive Input :=
| Arrive (r : Request) (w : World)  (* a request comes in *)
| Pick (i : nat)                    (* the loop resumes task [i] *)
| Step                              (* the running task goes on *)
| IoDone (i : nat).                 (* what task [i] awaits is there *)

Definition get_lock (l : LockRef) (t : Task) (s : State) : Lock :=
  match l with
  | GpuLock => gpu_lock s
  | OwnLock => own_lock t
  end.

(** Task [i] becomes [t] and lock [l] becomes [lk]. *)
Definition put (i : nat) (t : Task) (l : LockRef) (lk : Lock)
    (cur : option nat) (s : State) : State :=
  match l with
  | GpuLock =>
      {| tasks := <[i := t]> (tasks s); current := cur; gpu_lock := lk |}
  | OwnLock =>
      {| tasks :=
           <[i := {| code := code t; status := status t;
                     in_pipeline := in_pipeline t; own_lock := lk |}]>
             (tasks s);
         current := cur; gpu_lock := gpu_lock s |}
  end.

Definition wake (j : option nat) (s : State) : State :=
  match j with
  | None => s
  | Some j =>
      {| tasks :=
           alter (fun t => {| code := code t; status := LockWait true;
                              in_pipeline := in_pipeline t;
                              own_lock := own_lock t |}) j (tasks s);
         current := current s; gpu_lock := gpu_lock s |}
  end.

(** The running task [i], in state [t], goes through its next event. *)
Definition exec (i : nat) (t : Task) (s : State) : State :=
  match code t with
  | [] =>
      {| tasks := <[i := {| code := []; status := Finished;
                            in_pipeline := in_pipeline t;
                            own_lock := own_lock t |}]> (tasks s);
         current := None; gpu_lock := gpu_lock s |}
  | EvAcquire l :: rest =>
      match status t with
      | LockWait _ =>
          put i {| code := rest; status := Ready;
                   in_pipeline := in_pipeline t; own_lock := own_lock t |}
              l (resume_acquire i (get_lock l t s)) (Some i) s
      | _ =>
          let (lk, taken) := acquire i (get_lock l t s) in
          if taken
          then put i {| code := rest; status := Ready;
                        in_pipeline := in_pipeline t;
                        own_lock := own_lock t |} l lk (Some i) s
          else put i {| code := code t; status := LockWait false;
                        in_pipeline := in_pipeline t;
                        own_lock := own_lock t |} l lk None s
      end
  | EvRelease l :: rest =>
      let (lk, first) := release (get_lock l t s) in
      wake first
        (put i {| code := rest; status := Ready;
                  in_pipeline := in_pipeline t; own_lock := own_lock t |}
             l lk (Some i) s)
  | EvCall _ :: rest =>
      {| tasks := <[i := {| code := rest; status := Ready;
                            in_pipeline := true;
                            own_lock := own_lock t |}]> (tasks s);
         current := Some i; gpu_lock := gpu_lock s |}
  | EvDone :: rest =>
      {| tasks := <[i := {| code := rest; status := Ready;
                            in_pipeline := false;
                            own_lock := own_lock t |}]> (tasks s);
         current := Some i; gpu_lock := gpu_lock s |}
  | EvAwait :: rest =>
      {| tasks := <[i := {| code := rest; status := IOWait;
                            in_pipeline := in_pipeline t;
                            own_lock := own_lock t |}]> (tasks s);
         current := None; gpu_lock := gpu_lock s |}
  end.

(** One move of the loop; an input that cannot happen in the state
    changes nothing. *)
Definition step (s : State) (input : Input) : State :=
  match input with
  | Arrive r w =>
      {| tasks := tasks s ++ [new_task (handler_events r w)];
         current := current s; gpu_lock := gpu_lock s |}
  | Pick i =>
      match current s, tasks s !! i with
      | None, Some t =>
          if runnable (status t)
          then {| tasks := tasks s; current := Some i;
                  gpu_lock := gpu_lock s |}
          else s
      | _, _ => s
      end
  | Step =>
      match current s with
      | Some i =>
          match tasks s !! i with
          | Some t => exec i t s
          | None => s
          end
      | None => s
      end
  | IoDone i =>
      match tasks s !! i with
      | Some t =>
          match status t with
          | IOWait =>
              {| tasks := <[i := {| code := code t; status := Ready;
                                    in_pipeline := in_pipeline t;
                                    own_lock := own_lock t |}]> (tasks s);
                 current := current s; gpu_lock := gpu_lock s |}
          | _ => s
          end
      | None => s
      end
  end.

Definition run (inputs : list Input) (s : State) : State :=
  foldl step s inputs.

(** How many pipeline invocations are executing. *)
Definition executing (s : State) : nat :=
  length (filter (fun t => in_pipeline t = true) (tasks s)).

(** A pipeline call is synchronous: in a handler's events nothing
    comes between its start and its end.  [running] tells whether
    the events begin inside a call. *)
Fixpoint atomic_from (running : bool) (events : list (Event Image))
    : bool :=
  match events with
  | [] => negb running
  | EvDone :: rest => atomic_from false rest
  | EvCall _ :: rest => negb running && atomic_from true rest
  | _ :: rest => negb running && atomic_from false rest
  end.

Definition calls_are_atomic (events : list (Event Image)) : bool :=
  atomic_from false events.

(** The invariant of the loop, task by task: a task inside a
    pipeline call is the running one, and what it has left to do ends
    the call before anything else. *)
Definition task_ok (cur : option nat) (i : nat) (t : Task) : Prop :=
  atomic_from (in_pipeline t) (code t) = true ∧
  (in_pipeline t = true → cur = Some i ∧ status t = Ready).

Definition loop_ok (s : State) : Prop :=
  ∀ i t, tasks s !! i = Some t → task_ok (current s) i t.

(** No task is inside a pipeline call. *)
Definition all_outside (s : State) : Prop :=
  ∀ i t, tasks s !! i = Some t →
    in_pipeline t = false ∧ atomic_from false (code t) = true.

End WithExternals.

End Loop.

(** ** Vocabulary about capabilities *)

Section Capabilities.
Context `{Ext : Externals}.
Variable app : App.

(** The guards at app.py 196, 242 and 279. *)
Definition txt2img_unavailable : bool :=
  negb (ENABLE_TXT2IMG (settings app))
  || negb (txt2img_pipeline (pipelines app)).

Definition img2img_unavailable : bool :=
  negb (ENABLE_IMG2IMG (settings app))
  || negb (img2img_pipeline (pipelines app)).

(** Whether the capability a request needs is switched off. *)
Definition capability_disabled (r : Request) : bool :=
  match r with
  | PostTxt2Img _ | PostGenerations _ => txt2img_unavailable
  | PostImg2Img _ => img2img_unavailable
  | PostUpload _ | GetHealth => false
  end.

End Capabilities.

(** ** Vocabulary of the statements *)

Section Vocabulary.
Context `{Ext : Externals}.

(** A handler that leaves an observation [obs] of the world as it
    was, whatever the world and the outcome; [Silent] handlers leave
    the trace alone, [Appends] ones add exactly [events] to it. *)
Definition Preserves {X A : Type} (obs : World → X) (m : Handler A) : Prop :=
  ∀ w, obs (m w).2 = obs w.

Definition Silent {A : Type} (m : Handler A) : Prop := Preserves trace m.

Definition Appends {A : Type} (m : Handler A) (events : list (Event Image))
    : Prop :=
  ∀ w, trace (m w).2 = (trace w ++ events)%list.

(** The pipeline invocations a handler makes from world [w]. *)
Definition new_invocations {A : Type} (m : Handler A) (w : World)
    : list (Invocation Image) :=
  drop (length (invocations w)) (invocations (m w).2).

(** The file [/img2img] opens for [file_id] (app.py 247). *)
Definition upload_path (file_id : string) : string :=
  Py.path_join IMAGE_DIR (file_id +:+ ".png").

(** The invocations at app.py 205, 257 and 287. *)
Definition txt2img_call (input : Txt2ImgInput.t) : Invocation Image :=
  CallTxt2Img
    {| t2i_prompt := Txt2ImgInput.prompt input;
       t2i_negative_prompt := Some (Txt2ImgInput.negative_prompt input);
       t2i_num_inference_steps := Txt2ImgInput.num_inference_steps input;
       t2i_guidance_scale := Txt2ImgInput.guidance_scale input;
       t2i_num_images_per_prompt := None |}.

Definition img2img_call (input : Img2ImgInput.t) (pil_image : Image)
    : Invocation Image :=
  CallImg2Img
    {| i2i_prompt := Img2ImgInput.prompt input;
       i2i_negative_prompt := Img2ImgInput.negative_prompt input;
       i2i_image := pil_image;
       i2i_num_inference_steps := Img2ImgInput.num_inference_steps input;
       i2i_strength := Img2ImgInput.strength input;
       i2i_guidance_scale := Img2ImgInput.guidance_scale input |}.

Definition generations_call (request : ImageGenerationRequest.t)
    : Invocation Image :=
  CallTxt2Img
    {| t2i_prompt := ImageGenerationRequest.prompt request;
       t2i_negative_prompt := None;
       t2i_num_inference_steps := 30;
       t2i_guidance_scale := 7.5%float;
       t2i_num_images_per_prompt :=
         Some (ImageGenerationRequest.n request) |}.

(** The two dicts built at app.py 299-304 and 309-314. *)
Definition url_entry (id : string) (created : Z) : Dict :=
  [("id", JStr id); ("object", JStr "image"); ("created", JInt created);
   ("url", JStr ("/output_images/" +:+ id +:+ ".png"))].

Definition inline_entry (id : string) (created : Z) (image : Image) : Dict :=
  [("id", JStr id); ("object", JStr "image"); ("created", JInt created);
   ("b64_json", JStr (b64encode (png_bytes image)))].

(** What /v1/images/generations does once it has the pictures and
    the identifier (app.py 297-318). *)
Definition build_entries (request : ImageGenerationRequest.t)
    (id : string) (images : list Image) : Handler Returned :=
  responses ←
    (if String.eqb (ImageGenerationRequest.response_format request) "url"
     then
       for_each
         (fun image =>
            created ← int_time;
            url ← save_image_and_get_url image id;
            mret [("id", JStr id); ("object", JStr "image");
                  ("created", JInt created); ("url", JStr url)])
         images
     else
       for_each
         (fun image =>
            created ← int_time;
            b64_json ← encode_image_to_base64 image;
            mret [("id", JStr id); ("object", JStr "image");
                  ("created", JInt created);
                  ("b64_json", JStr b64_json)])
         images);
  mret (DataResponse responses).

(** What [StreamingResponse(stream_image(image), ...)] is when the
    next [uuid4()] is the [k]-th. *)
Definition png_response (image : Image) (k : nat) : Returned :=
  StreamingResponse (stream_image image) "image/png"
    ("attachment; filename=" +:+ Uuid.str (Uuid.uuid4 (urandom16 k))
     +:+ ".png").

(** The world after a pipeline call under lock [l]. *)
Definition after_call (l : LockRef) (call : Invocation Image) (w : World)
    : World :=
  log [EvAcquire l; EvCall call; EvDone; EvRelease l] w.

(** What the [try] block of /txt2img and /img2img comes to. *)
Definition streamed (call : Invocation Image) (w : World)
    : Outcome Returned * World :=
  match run_pipeline (length (invocations w)) call with
  | inl message =>
      (Raise (HTTPException 500 message), after_call GpuLock call w)
  | inr [] =>
      (Raise (HTTPException 500 "list index out of range"),
       after_call GpuLock call w)
  | inr (image :: _) =>
      (Return (png_response image (uuid_draws w)),
       (uuid4_str (after_call GpuLock call w)).2)
  end.

(** The picture /img2img hands to the pipeline for [file_id], if the
    file is there and is a picture. *)
Definition opened_image (w : World) (file_id : string) : option Image :=
  match files w !! upload_path file_id with
  | Some content =>
      match image_open_rgb content with
      | inr pil_image => Some pil_image
      | inl _ => None
      end
  | None => None
  end.

(** The identifier the next [uuid4()] yields in world [w]. *)
Definition next_uuid (w : World) : string :=
  Uuid.str (Uuid.uuid4 (urandom16 (uuid_draws w))).

(** The request makes one pipeline invocation, and that invocation
    raises an exception with message [message]. *)
Definition pipeline_raises (app : App) (r : Request) (w : World)
    (message : string) : Prop :=
  ∃ call,
    new_invocations (serve app r) w = [call] ∧
    run_pipeline (length (invocations w)) call = inl message.

(** All entries carry the same value under [key]. *)
Definition share_field (key : string) (entries : list Dict) : Prop :=
  ∃ v, Forall (fun e => dict_get key e = Some v) entries.

(** [key] is present in the entry, with a string value. *)
Definition populated (key : string) (entry : Dict) : Prop :=
  ∃ s, dict_get key entry = Some (JStr s).

End Vocabulary.

(** ** Concrete surroundings for the examples *)

Module Demo.

(** Pictures are numbers; the text-to-image pipeline and the clock are
    left open. *)
Definition externals (t2i : nat -> Txt2ImgKwargs -> string + list nat)
    (clock : nat -> Z) : Externals :=
  {| Image := nat;
     txt2img_model := t2i;
     img2img_model := fun _ kwargs => inr [i2i_image kwargs];
     urandom16 := fun k => N.of_nat k;
     time_time := clock;
     png_bytes := fun image => ([x89; x50; x4e; x47] ++ repeat x00 image)%list;
     image_open_rgb := fun content => inr (length content);
     b64encode := fun _ => "iVBORw==";
     write_error := fun _ => None |}.

(** A pipeline that returns as many pictures as it is asked for. *)
Definition obedient (k : nat) (kwargs : Txt2ImgKwargs) : string + list nat :=
  inr (seq 0 (Z.to_nat (default 1 (t2i_num_images_per_prompt kwargs)))).

(** A pipeline that always fails. *)
Definition out_of_memory (k : nat) (kwargs : Txt2ImgKwargs)
    : string + list nat :=
  inl "CUDA out of memory".

Definition steady_clock (k : nat) : Z := 1700000000.
Definition ticking_clock (k : nat) : Z := 1700000000 + Z.of_nat k.

Definition working : Externals := externals obedient steady_clock.
Definition ticking : Externals := externals obedient ticking_clock.
Definition failing : Externals := externals out_of_memory steady_clock.

Definition loaded (s : Settings) : Pipelines :=
  {| txt2img_pipeline := ENABLE_TXT2IMG s;
     img2img_pipeline := ENABLE_IMG2IMG s |}.

(** The server with no environment variable set, on a GPU. *)
Definition app : App :=
  let s := read_settings ∅ true in
  {| settings := s; pipelines := loaded s |}.

(** The server started with [ENABLE_TXT2IMG=0]. *)
Definition app_without_txt2img : App :=
  let s := read_settings {[ "ENABLE_TXT2IMG" := "0" ]} true in
  {| settings := s; pipelines := loaded s |}.

(** The server started with [ENABLE_IMG2IMG=false]. *)
Definition app_without_img2img : App :=
  let s := read_settings {[ "ENABLE_IMG2IMG" := "false" ]} true in
  {| settings := s; pipelines := loaded s |}.

(** A freshly started process with empty directories. *)
Definition start `{Ext : Externals} : World :=
  {| files := ∅; uuid_draws := 0; clock_reads := 0; write_attempts := 0;
     trace := [] |}.

Definition three_urls : ImageGenerationRequest.t :=
  {| ImageGenerationRequest.prompt := "a lighthouse at dusk";
     ImageGenerationRequest.n := 3;
     ImageGenerationRequest.size := "512x512";
     ImageGenerationRequest.response_format := "url" |}.

Definition three_inline : ImageGenerationRequest.t :=
  {| ImageGenerationRequest.prompt := "a lighthouse at dusk";
     ImageGenerationRequest.n := 3;
     ImageGenerationRequest.size := "1024x1024";
     ImageGenerationRequest.response_format := "b64_json" |}.

End Demo.

(** Requests and worlds for the examples, on the server of [Demo.working]. *)

Section DemoRequests.
#[local] Existing Instance Demo.working.

Definition only_prompt : Txt2ImgInput.body :=
  {| Txt2ImgInput.body_prompt := "a lighthouse at dusk";
     Txt2ImgInput.body_negative_prompt := None;
     Txt2ImgInput.body_num_inference_steps := None;
     Txt2ImgInput.body_guidance_scale := None |}.

Definition prompt_and_file (file_id : string) : Img2ImgInput.body :=
  {| Img2ImgInput.body_prompt := "a lighthouse at dusk";
     Img2ImgInput.body_negative_prompt := None;
     Img2ImgInput.body_file_id := file_id;
     Img2ImgInput.body_num_inference_steps := None;
     Img2ImgInput.body_strength := None;
     Img2ImgInput.body_guidance_scale := None |}.

Definition three_please : ImageGenerationRequest.body :=
  {| ImageGenerationRequest.body_prompt := "a lighthouse at dusk";
     ImageGenerationRequest.body_n := Some 3;
     ImageGenerationRequest.body_size := None;
     ImageGenerationRequest.body_response_format := None |}.

Definition first_id : string := "00000000-0000-4000-8000-000000000000".

(** The world after the upload of two bytes to a fresh server. *)
Definition uploaded : World := (upload_image [x01; x02]%byte Demo.start).2.

Definition in_between : list Request :=
  [PostUpload [x03]%byte; PostGenerations three_please; GetHealth;
   PostTxt2Img only_prompt].

End DemoRequests.

(** Splits [H : (o, w) = (o', w')] into [H : o = o'] and an equation on
    the worlds, without looking inside the worlds. *)
Ltac outcome_and_world H :=
  let Hw := fresh "Hworld" in
  pose proof (f_equal snd H) as Hw;
  apply (f_equal fst) in H;
  cbn [fst snd] in H, Hw.


(** ** Vocabulary of the further properties *)

(** A [file_id] without "/": uploaded_images/<file_id>.png then names a
    file directly inside the upload directory. *)
Fixpoint plain_name (s : string) : bool :=
  match s with
  | EmptyString => true
  | String c rest => negb (Ascii.eqb c "/") && plain_name rest
  end.

#[export] Instance lockref_eq_dec : EqDecision LockRef.
Proof. solve_decision. Defined.

Section FurtherVocabulary.
Context `{Ext : Externals}.

(** The lock the handler of a request names in its [async with]
    (app.py 202, 254 and 285); /upload and /health have none. *)
Definition lock_of (r : Request) : option LockRef :=
  match r with
  | PostTxt2Img _ | PostImg2Img _ => Some GpuLock
  | PostGenerations _ => Some OwnLock
  | PostUpload _ | GetHealth => None
  end.

(** Whether the handler of a request reaches a write to a file: the
    [f.write] of /upload (app.py 231-232) and the [image.save] behind the
    "url" format (app.py 303, 178). *)
Definition may_write_files (r : Request) : bool :=
  match r with
  | PostUpload _ => true
  | PostGenerations body =>
      String.eqb
        (ImageGenerationRequest.response_format
           (ImageGenerationRequest.of_body body)) "url"
  | PostTxt2Img _ | PostImg2Img _ | GetHealth => false
  end.

(** The file [save_image_and_get_url] writes for an identifier. *)
Definition output_path (file_id : string) : string :=
  Py.path_join "output_images" (file_id +:+ ".png").

(** What is left of a handler's events once lock [l] is taken and not
    yet released. *)
Definition holds (l : LockRef) (events : list (Event Image)) : bool :=
  match events with
  | [EvCall _; EvDone; EvRelease l'] | [EvDone; EvRelease l']
  | [EvRelease l'] => bool_decide (l = l')
  | _ => false
  end.

(** The event sequences of the handlers, and what is left of them on
    the way. *)
Definition script (events : list (Event Image)) : bool :=
  match events with
  | [] | [EvAwait] => true
  | [EvAcquire l; EvCall _; EvDone; EvRelease l'] => bool_decide (l = l')
  | [EvCall _; EvDone; EvRelease _] | [EvDone; EvRelease _]
  | [EvRelease _] => true
  | _ => false
  end.

(** A task that waits for no lock, on whose own lock nobody waits, and
    whose own lock is taken only between its acquire and its release. *)
Definition task_quiet (t : Loop.Task) : Prop :=
  script (Loop.code t) = true ∧
  (∀ woken, Loop.status t ≠ Loop.LockWait woken) ∧
  Loop.waiters (Loop.own_lock t) = [] ∧
  (Loop.locked (Loop.own_lock t) = true →
   holds OwnLock (Loop.code t) = true).

(** Nobody waits for [gpu_lock], and it is taken only by the running
    task, between its acquire and its release. *)
Definition quiet (s : Loop.State) : Prop :=
  Loop.waiters (Loop.gpu_lock s) = [] ∧
  (Loop.locked (Loop.gpu_lock s) = true →
   ∃ i t, Loop.current s = Some i ∧ Loop.tasks s !! i = Some t ∧
          holds GpuLock (Loop.code t) = true) ∧
  ∀ i t, Loop.tasks s !! i = Some t → task_quiet t.

(** A handler that keeps every file there is: a path that names a file
    before it runs names one afterwards. *)
Definition Keeps {A : Type} (m : Handler A) : Prop :=
  ∀ w path, is_Some (files w !! path) → is_Some (files (m w).2 !! path).

End FurtherVocabulary.

(** More surroundings for the examples. *)

Module Lab.

(** A pipeline that returns no picture at all. *)
Definition barren (k : nat) (kwargs : Txt2ImgKwargs) : string + list nat :=
  inr [].

(** A decoder that refuses the empty file, and a process that cannot
    open a file for writing from its second attempt on. *)
Definition picky : Externals :=
  {| Image := nat;
     txt2img_model := Demo.obedient;
     img2img_model := fun _ kwargs => inr [i2i_image kwargs];
     urandom16 := fun k => N.of_nat k;
     time_time := Demo.steady_clock;
     png_bytes := fun image => ([x89; x50; x4e; x47] ++ repeat x00 image)%list;
     image_open_rgb := fun content =>
       match content with
       | [] => inl "cannot identify image file"
       | _ => inr (length content)
       end;
     b64encode := fun _ => "iVBORw==";
     write_error := fun k =>
       match k with
       | O => None
       | _ => Some "Too many open files"
       end |}.

Definition empty_handed : Externals :=
  Demo.externals barren Demo.steady_clock.

(** A fresh server beside a file that is not an upload. *)
Definition with_foreign_file `{Ext : Externals} : World :=
  {| files := {[ "/srv/private/photo.png" := [x01; x02; x03]%byte ]};
     uuid_draws := 0; clock_reads := 0; write_attempts := 0; trace := [] |}.

Definition absolute_request : Img2ImgInput.body :=
  {| Img2ImgInput.body_prompt := "a lighthouse at dusk";
     Img2ImgInput.body_negative_prompt := None;
     Img2ImgInput.body_file_id := "/srv/private/photo";
     Img2ImgInput.body_num_inference_steps := None;
     Img2ImgInput.body_strength := None;
     Img2ImgInput.body_guidance_scale := None |}.

Definition shouting : ImageGenerationRequest.t :=
  {| ImageGenerationRequest.prompt := "a lighthouse at dusk";
     ImageGenerationRequest.n := 2;
     ImageGenerationRequest.size := "512x512";
     ImageGenerationRequest.response_format := "URL" |}.

Definition two_urls : ImageGenerationRequest.t :=
  {| ImageGenerationRequest.prompt := "a lighthouse at dusk";
     ImageGenerationRequest.n := 2;
     ImageGenerationRequest.size := "512x512";
     ImageGenerationRequest.response_format := "url" |}.

End Lab.

(** The two kinds of side condition of the invariant [quiet] after one
    event of the running task: what follows from a lock being taken,
    and that the task that moved is quiet. *)
Ltac quiet_taken :=
  simpl in *;
  first
    [ assumption
    | match goal with
      | Hfree : ?x = false |- ?x = true → _ => rewrite Hfree; discriminate
      end
    | match goal with
      | Himp : ?x = true → false = true |- ?x = true → _ =>
          let Hx := fresh in intros Hx; discriminate (Himp Hx)
      end
    | match goal with
      | Himp : ?x = true → ?P |- ?x = true → _ ∧ ?P =>
          let Hx := fresh in
          intros Hx; split; [reflexivity | exact (Himp Hx)]
      end
    | intros _; split; [reflexivity | now apply bool_decide_eq_true]
    | intros _; now apply bool_decide_eq_true
    | intros _; reflexivity ].

Ltac quiet_side :=
  first
    [ quiet_taken
    | split;
      [ reflexivity
      | split;
        [ intros ?; discriminate
        | split; [ simpl; auto | quiet_taken ] ] ] ].

(** * Properties of the handlers, one request at a time *)

Section HandlerFacts.
Context `{Ext : Externals}.

Lemma new_invocations_unchanged {A : Type} (m : Handler A) (w : World) :
  invocations (m w).2 = invocations w → new_invocations m w = [].
Proof.
  intros Heq. unfold new_invocations. rewrite Heq. apply drop_all.
Qed.

Lemma new_invocations_app {A : Type} (m : Handler A) (w : World) calls :
  invocations (m w).2 = (invocations w ++ calls)%list →
  new_invocations m w = calls.
Proof.
  intros Heq. unfold new_invocations. rewrite Heq. apply drop_app_length.
Qed.

Lemma invocations_log (w : World) events :
  invocations (log events w) = (invocations w ++ omap call_of events)%list.
Proof. unfold invocations, log. simpl. apply omap_app. Qed.

(** On a server that started, a pipeline reference is set exactly when
    its capability is enabled: the guards of the handlers test the
    flags. *)
Lemma started_server_guards s from_pretrained_error p :
  load_models s from_pretrained_error = inr p →
  txt2img_unavailable {| settings := s; pipelines := p |}
    = negb (ENABLE_TXT2IMG s) ∧
  img2img_unavailable {| settings := s; pipelines := p |}
    = negb (ENABLE_IMG2IMG s).
Proof.
  unfold load_models, txt2img_unavailable, img2img_unavailable. simpl.
  destruct (ENABLE_TXT2IMG s), (ENABLE_IMG2IMG s), from_pretrained_error;
    simpl; intros [= <-]; split; reflexivity.
Qed.

Lemma read_chunks_concat rounds chunk_size data :
  (0 < chunk_size)%nat → (length data ≤ rounds)%nat →
  concat (read_chunks rounds chunk_size data) = data.
Proof.
  intros Hsize. revert data.
  induction rounds as [|rounds IH]; intros data Hlen.
  - destruct data; [reflexivity|simpl in Hlen; lia].
  - simpl. destruct (take chunk_size data) as [|b chunk] eqn:Htake.
    + destruct data, chunk_size; simpl in *; (reflexivity || lia || discriminate).
    + rewrite <- Htake. simpl. rewrite IH, take_drop; [reflexivity|].
      rewrite length_drop. lia.
Qed.

(** The chunks [stream_image] yields are the PNG encoding, in order. *)
Lemma stream_image_is_the_png image :
  concat (stream_image image) = png_bytes image.
Proof. unfold stream_image. apply read_chunks_concat; lia. Qed.

End HandlerFacts.

(** ** What the handlers add to the trace *)

Section TraceFacts.
Context `{Ext : Externals}.

Lemma preserves_ret {X A : Type} (obs : World → X) (a : A) :
  Preserves obs (mret a).
Proof. intros w. reflexivity. Qed.

Lemma preserves_raise {X A : Type} (obs : World → X) (e : Exn) :
  Preserves obs (raise (A := A) e).
Proof. intros w. reflexivity. Qed.

Lemma preserves_bind {X A B : Type} (obs : World → X) (m : Handler A)
    (f : A → Handler B) :
  Preserves obs m → (∀ a, Preserves obs (f a)) → Preserves obs (m ≫= f).
Proof.
  intros Hm Hf w. unfold mbind, handler_bind.
  specialize (Hm w). destruct (m w) as [[a|e] w']; simpl in *.
  - now rewrite Hf.
  - exact Hm.
Qed.

Lemma preserves_try_except {X A : Type} (obs : World → X)
    (body : Handler A) handler :
  Preserves obs body → (∀ e, Preserves obs (handler e)) →
  Preserves obs (try_except body handler).
Proof.
  intros Hm Hh w. unfold try_except.
  specialize (Hm w). destruct (body w) as [[a|e] w']; simpl in *.
  - exact Hm.
  - now rewrite Hh.
Qed.

Lemma preserves_for_each {X A B : Type} (obs : World → X)
    (f : A → Handler B) xs :
  (∀ x, Preserves obs (f x)) → Preserves obs (for_each f xs).
Proof.
  intros Hf. induction xs as [|x rest IH]; simpl.
  - apply preserves_ret.
  - apply preserves_bind; [apply Hf|]. intros y.
    apply preserves_bind; [exact IH|]. intros ys. apply preserves_ret.
Qed.

Lemma silent_uuid4_str : Silent uuid4_str.
Proof. intros w. reflexivity. Qed.

Lemma silent_int_time : Silent int_time.
Proof. intros w. reflexivity. Qed.

Lemma silent_write_file path content : Silent (write_file path content).
Proof.
  intros w. unfold write_file. now destruct (write_error (write_attempts w)).
Qed.

Lemma silent_first_image images : Silent (first_image images).
Proof. intros w. now destruct images. Qed.

Lemma appends_invoke call : Appends (invoke call) [EvCall call; EvDone].
Proof.
  intros w. unfold invoke.
  now destruct (run_pipeline (length (invocations w)) call).
Qed.

Lemma appends_emit events : Appends (emit events) events.
Proof. intros w. reflexivity. Qed.

Lemma appends_bind_silent {A B : Type} (m : Handler A) (f : A → Handler B)
    events :
  Appends m events → (∀ a, Silent (f a)) → Appends (m ≫= f) events.
Proof.
  intros Hm Hf w. unfold mbind, handler_bind.
  specialize (Hm w). destruct (m w) as [[a|e] w']; simpl in *.
  - now rewrite Hf.
  - exact Hm.
Qed.

Lemma appends_async_with {A : Type} l (body : Handler A) events :
  Appends body events →
  Appends (async_with l body) (EvAcquire l :: events ++ [EvRelease l]).
Proof.
  intros Hm w. unfold async_with.
  specialize (Hm (log [EvAcquire l] w)).
  destruct (body (log [EvAcquire l] w)) as [r w']; simpl in *.
  rewrite Hm. now rewrite <- !app_assoc.
Qed.

Lemma appends_try_except {A : Type} (body : Handler A) handler events :
  Appends body events → (∀ e, Silent (handler e)) →
  Appends (try_except body handler) events.
Proof.
  intros Hm Hh w. unfold try_except.
  specialize (Hm w). destruct (body w) as [[a|e] w']; simpl in *.
  - exact Hm.
  - now rewrite Hh.
Qed.

Lemma silent_save_image_and_get_url image file_id :
  Silent (save_image_and_get_url image file_id).
Proof.
  unfold save_image_and_get_url.
  apply preserves_bind; [apply silent_write_file|].
  intros _. apply preserves_ret.
Qed.

(** An available /txt2img takes [gpu_lock] around its one call. *)
Lemma txt2img_appends app input :
  txt2img_unavailable app = false →
  Appends (txt2img app input)
    [EvAcquire GpuLock;
     EvCall (CallTxt2Img
       {| t2i_prompt := Txt2ImgInput.prompt input;
          t2i_negative_prompt := Some (Txt2ImgInput.negative_prompt input);
          t2i_num_inference_steps := Txt2ImgInput.num_inference_steps input;
          t2i_guidance_scale := Txt2ImgInput.guidance_scale input;
          t2i_num_images_per_prompt := None |});
     EvDone; EvRelease GpuLock].
Proof.
  intros Hon. unfold txt2img. unfold txt2img_unavailable in Hon. rewrite Hon.
  apply appends_try_except; [|intros e; apply preserves_raise].
  apply appends_bind_silent.
  - apply (appends_async_with GpuLock _ [_; _]).
    apply appends_bind_silent; [apply appends_invoke|].
    intros images. apply silent_first_image.
  - intros image. apply preserves_bind; [apply silent_uuid4_str|].
    intros name. apply preserves_ret.
Qed.

(** An available /v1/images/generations takes a lock of its own around
    its one call. *)
Lemma generate_images_appends app request :
  txt2img_unavailable app = false →
  Appends (generate_images app request)
    [EvAcquire OwnLock;
     EvCall (CallTxt2Img
       {| t2i_prompt := ImageGenerationRequest.prompt request;
          t2i_negative_prompt := None;
          t2i_num_inference_steps := 30;
          t2i_guidance_scale := 7.5%float;
          t2i_num_images_per_prompt :=
            Some (ImageGenerationRequest.n request) |});
     EvDone; EvRelease OwnLock].
Proof.
  intros Hon. unfold generate_images.
  unfold txt2img_unavailable in Hon. rewrite Hon.
  apply appends_try_except; [|intros e; apply preserves_raise].
  apply appends_bind_silent.
  - apply (appends_async_with OwnLock _ [_; _]). apply appends_invoke.
  - intros images. apply preserves_bind; [apply silent_uuid4_str|].
    intros id. apply preserves_bind; [|intros; apply preserves_ret].
    destruct (String.eqb _ _); apply preserves_for_each; intros image.
    + apply preserves_bind; [apply silent_int_time|]. intros created.
      apply preserves_bind; [apply silent_save_image_and_get_url|].
      intros url. apply preserves_ret.
    + apply preserves_bind; [apply silent_int_time|]. intros created.
      apply preserves_bind; [|intros; apply preserves_ret].
      intros w. reflexivity.
Qed.

Lemma upload_image_appends file :
  Appends (upload_image file) [EvAwait].
Proof.
  unfold upload_image.
  apply appends_try_except; [|intros e; apply preserves_raise].
  intros w.
  unfold mbind, handler_bind, uuid4_str, emit; simpl.
  match goal with |- context [write_file ?p ?c ?w'] =>
    pose proof (silent_write_file p c w') as Hw;
    destruct (write_file p c w') as [[[]|e] w'']
  end; simpl in *; exact Hw.
Qed.

Lemma invocations_of_appends {A : Type} (m : Handler A) events w :
  Appends m events → new_invocations m w = omap call_of events.
Proof.
  intros Hm. apply new_invocations_app.
  unfold invocations. rewrite Hm. apply omap_app.
Qed.

End TraceFacts.

(** ** What the handlers return *)

Section Outcomes.
Context `{Ext : Externals}.

Lemma bind_run {A B : Type} (m : Handler A) (f : A → Handler B) w :
  (m ≫= f) w =
  match m w with
  | (Return a, w') => f a w'
  | (Raise e, w') => (Raise e, w')
  end.
Proof. reflexivity. Qed.

Lemma txt2img_off app input w :
  txt2img_unavailable app = true →
  txt2img app input w =
  (Raise (HTTPException 400 "txt2img is disabled on this server."), w).
Proof.
  intros Hoff. unfold txt2img. unfold txt2img_unavailable in Hoff.
  now rewrite Hoff.
Qed.

Lemma img2img_off app input w :
  img2img_unavailable app = true →
  img2img app input w =
  (Raise (HTTPException 400 "img2img is disabled on this server."), w).
Proof.
  intros Hoff. unfold img2img. unfold img2img_unavailable in Hoff.
  now rewrite Hoff.
Qed.

Lemma generate_images_off app request w :
  txt2img_unavailable app = true →
  generate_images app request w =
  (Raise (HTTPException 503 "Text-to-Image generation is unavailable."), w).
Proof.
  intros Hoff. unfold generate_images. unfold txt2img_unavailable in Hoff.
  now rewrite Hoff.
Qed.

Lemma log_log a b (w : World) : log b (log a w) = log (a ++ b) w.
Proof. unfold log. simpl. now rewrite <- app_assoc. Qed.

Lemma invocations_log_acquire l (w : World) :
  invocations (log [EvAcquire l] w) = invocations w.
Proof. rewrite invocations_log. simpl. apply app_nil_r. Qed.

Lemma locked_call l call w :
  async_with l (invoke call) w =
  (match run_pipeline (length (invocations w)) call with
   | inl message => Raise (Exception message)
   | inr images => Return images
   end, after_call l call w).
Proof.
  unfold async_with, invoke, after_call. rewrite invocations_log_acquire.
  destruct (run_pipeline _ _); now rewrite !log_log.
Qed.

Lemma locked_first l call w :
  async_with l (invoke call ≫= first_image) w =
  (match run_pipeline (length (invocations w)) call with
   | inl message => Raise (Exception message)
   | inr [] => Raise (Exception "list index out of range")
   | inr (image :: _) => Return image
   end, after_call l call w).
Proof.
  unfold async_with, after_call. rewrite bind_run. unfold invoke.
  rewrite invocations_log_acquire.
  destruct (run_pipeline _ _) as [message | [|image rest]]; simpl;
    now rewrite !log_log.
Qed.

Lemma txt2img_on app input w :
  txt2img_unavailable app = false →
  txt2img app input w = streamed (txt2img_call input) w.
Proof.
  intros Hon. unfold txt2img. unfold txt2img_unavailable in Hon.
  rewrite Hon. unfold try_except. rewrite bind_run.
  change (async_with GpuLock _ w)
    with (async_with GpuLock (invoke (txt2img_call input) ≫= first_image) w).
  rewrite locked_first. unfold streamed.
  now destruct (run_pipeline _ _) as [message | [|image rest]].
Qed.

Lemma img2img_missing app input w :
  img2img_unavailable app = false →
  files w !! upload_path (Img2ImgInput.file_id input) = None →
  img2img app input w =
  (Raise (HTTPException 404 "Uploaded file not found on disk."), w).
Proof.
  intros Hon Hnone. unfold img2img. unfold img2img_unavailable in Hon.
  rewrite Hon. rewrite bind_run. unfold os_path_exists.
  fold (upload_path (Img2ImgInput.file_id input)). rewrite Hnone.
  rewrite bool_decide_eq_false_2; [reflexivity|].
  intros [x Hx]. discriminate.
Qed.

Lemma img2img_on app input w content :
  img2img_unavailable app = false →
  files w !! upload_path (Img2ImgInput.file_id input) = Some content →
  img2img app input w =
  match image_open_rgb content with
  | inl message => (Raise (Exception message), w)
  | inr pil_image => streamed (img2img_call input pil_image) w
  end.
Proof.
  intros Hon Hsome. unfold img2img. unfold img2img_unavailable in Hon.
  rewrite Hon. rewrite bind_run. unfold os_path_exists.
  fold (upload_path (Img2ImgInput.file_id input)). rewrite Hsome.
  rewrite bool_decide_eq_true_2; [|eauto]. simpl.
  rewrite bind_run. unfold image_open. rewrite Hsome.
  destruct (image_open_rgb content) as [message | pil_image];
    [reflexivity|].
  unfold try_except. rewrite bind_run.
  change (async_with GpuLock _ w)
    with (async_with GpuLock
            (invoke (img2img_call input pil_image) ≫= first_image) w).
  rewrite locked_first. unfold streamed.
  now destruct (run_pipeline _ _) as [message | [|image rest]].
Qed.

Lemma streamed_invocations call w :
  invocations (streamed call w).2 = (invocations w ++ [call])%list.
Proof.
  unfold streamed, after_call.
  destruct (run_pipeline _ _) as [message | [|image rest]]; simpl;
    apply (invocations_log w [EvAcquire GpuLock; EvCall call; EvDone;
                              EvRelease GpuLock]).
Qed.

End Outcomes.

(** * Guards, health and the size field *)

Section Guards.
Context `{Ext : Externals}.

Lemma nothing_invoked {A : Type} (m : Handler A) (w : World) o :
  m w = (o, w) → new_invocations m w = [].
Proof.
  intros Hrun. apply new_invocations_unchanged. now rewrite Hrun.
Qed.

Lemma streamed_new_invocations (m : Handler Returned) call w :
  m w = streamed call w → new_invocations m w = [call].
Proof.
  intros Hrun. apply new_invocations_app. rewrite Hrun.
  apply streamed_invocations.
Qed.

(** C3: a request whose capability is switched off is answered with the
    error of its endpoint (400 for /txt2img and /img2img, 503 for
    /v1/images/generations), and nothing else happens: the world,
    hence the list of pipeline invocations, is as before. *)
Theorem disabled_capability_is_refused (app : App) (r : Request) (w : World) :
  capability_disabled app r = true →
  ∃ detail,
    serve app r w =
      (Raise (HTTPException
                (match r with PostGenerations _ => 503 | _ => 400 end)
                detail), w) ∧
    http_status (serve app r w).1 =
      (match r with PostGenerations _ => 503 | _ => 400 end) ∧
    http_error_body (serve app r w).1 = Some [("detail", JStr detail)] ∧
    new_invocations (serve app r) w = [].
Proof.
  intros Hoff.
  destruct r as [body | file | body | body | ]; simpl in Hoff;
    try discriminate; eexists; simpl.
  - rewrite (txt2img_off _ _ _ Hoff). repeat split.
    eapply nothing_invoked, txt2img_off, Hoff.
  - rewrite (img2img_off _ _ _ Hoff). repeat split.
    eapply nothing_invoked, img2img_off, Hoff.
  - rewrite (generate_images_off _ _ _ Hoff). repeat split.
    eapply nothing_invoked, generate_images_off, Hoff.
Qed.


(** The handler of /v1/images/generations never reads [size]. *)
Lemma generate_images_ignores_size app (r1 r2 : ImageGenerationRequest.t) :
  ImageGenerationRequest.prompt r1 = ImageGenerationRequest.prompt r2 →
  ImageGenerationRequest.n r1 = ImageGenerationRequest.n r2 →
  ImageGenerationRequest.response_format r1 =
    ImageGenerationRequest.response_format r2 →
  generate_images app r1 = generate_images app r2.
Proof.
  destruct r1, r2. simpl. intros -> -> ->. reflexivity.
Qed.

(** C6: two requests to /v1/images/generations that differ only in
    [size] are handled identically from the same world: same response,
    same world afterwards (files, trace), same pipeline invocations
    with the same arguments. *)
Theorem size_does_not_interfere (app : App)
    (r1 r2 : ImageGenerationRequest.t) (w : World) :
  ImageGenerationRequest.prompt r1 = ImageGenerationRequest.prompt r2 →
  ImageGenerationRequest.n r1 = ImageGenerationRequest.n r2 →
  ImageGenerationRequest.response_format r1 =
    ImageGenerationRequest.response_format r2 →
  generate_images app r1 w = generate_images app r2 w ∧
  new_invocations (generate_images app r1) w =
    new_invocations (generate_images app r2) w.
Proof.
  intros Hp Hn Hf.
  now rewrite (generate_images_ignores_size app r1 r2 Hp Hn Hf).
Qed.

(** C7: GET /health returns the dict with the keys status, device,
    model, enable_txt2img and enable_img2img, whose values are "ok",
    the selected device, the model identifier and the two configured
    flags; the world is untouched and no pipeline is invoked. *)
Theorem health_reports_settings (app : App) (w : World) :
  ∃ body,
    health_check app w = (Return (JsonResponse body), w) ∧
    map fst body =
      ["status"; "device"; "model"; "enable_txt2img"; "enable_img2img"] ∧
    dict_get "status" body = Some (JStr "ok") ∧
    dict_get "device" body = Some (JStr (device (settings app))) ∧
    dict_get "model" body = Some (JStr (MODEL_NAME (settings app))) ∧
    dict_get "enable_txt2img" body =
      Some (JBool (ENABLE_TXT2IMG (settings app))) ∧
    dict_get "enable_img2img" body =
      Some (JBool (ENABLE_IMG2IMG (settings app))) ∧
    new_invocations (health_check app) w = [].
Proof.
  eexists. split; [reflexivity|]. repeat split.
  now apply (nothing_invoked _ w (Return (JsonResponse
    [("status", JStr "ok"); ("device", JStr (device (settings app)));
     ("model", JStr (MODEL_NAME (settings app)));
     ("enable_txt2img", JBool (ENABLE_TXT2IMG (settings app)));
     ("enable_img2img", JBool (ENABLE_IMG2IMG (settings app)))]))).
Qed.

End Guards.

Section Invocations.
Context `{Ext : Externals}.

Lemma txt2img_invocations app input w :
  new_invocations (txt2img app input) w =
  if txt2img_unavailable app then [] else [txt2img_call input].
Proof.
  destruct (txt2img_unavailable app) eqn:Hguard.
  - eapply nothing_invoked, txt2img_off, Hguard.
  - apply streamed_new_invocations, txt2img_on, Hguard.
Qed.

Lemma img2img_invocations app input w :
  new_invocations (img2img app input) w =
  if img2img_unavailable app then []
  else match opened_image w (Img2ImgInput.file_id input) with
       | Some pil_image => [img2img_call input pil_image]
       | None => []
       end.
Proof.
  destruct (img2img_unavailable app) eqn:Hguard.
  - eapply nothing_invoked, img2img_off, Hguard.
  - unfold opened_image.
    destruct (files w !! upload_path (Img2ImgInput.file_id input))
      as [content|] eqn:Hfile.
    + pose proof (img2img_on app input w content Hguard Hfile) as Hrun.
      destruct (image_open_rgb content) as [message | pil_image].
      * eapply nothing_invoked, Hrun.
      * apply streamed_new_invocations, Hrun.
    + eapply nothing_invoked, img2img_missing; eassumption.
Qed.

Lemma generate_images_invocations app request w :
  new_invocations (generate_images app request) w =
  if txt2img_unavailable app then [] else [generations_call request].
Proof.
  destruct (txt2img_unavailable app) eqn:Hguard.
  - eapply nothing_invoked, generate_images_off, Hguard.
  - apply (invocations_of_appends _ _ w
             (generate_images_appends app request Hguard)).
Qed.

Lemma generate_images_raises app request w message :
  txt2img_unavailable app = false →
  run_pipeline (length (invocations w)) (generations_call request)
    = inl message →
  generate_images app request w =
  (Raise (HTTPException 500 "Internal server error."),
   after_call OwnLock (generations_call request) w).
Proof.
  intros Hon Hraise. unfold generate_images.
  unfold txt2img_unavailable in Hon. rewrite Hon.
  unfold try_except. rewrite bind_run.
  change (async_with OwnLock _ w)
    with (async_with OwnLock (invoke (generations_call request)) w).
  rewrite locked_call, Hraise. reflexivity.
Qed.

(** C8, amended: when the one pipeline invocation of a request raises
    an exception, the answer is HTTP 500 with a JSON body that has a
    [detail] field; for /txt2img and /img2img the detail is the
    message of the exception, for /v1/images/generations it is the
    fixed text "Internal server error.". *)
Theorem pipeline_failure_is_500 (app : App) (r : Request) (w : World)
    (message : string) :
  pipeline_raises app r w message →
  let detail :=
    match r with
    | PostGenerations _ => "Internal server error."
    | _ => message
    end in
  (serve app r w).1 = Raise (HTTPException 500 detail) ∧
  http_status (serve app r w).1 = 500 ∧
  http_error_body (serve app r w).1 = Some [("detail", JStr detail)].
Proof.
  intros (call & Hcalls & Hraise) detail.
  assert (Hout : (serve app r w).1 = Raise (HTTPException 500 detail));
    [|now rewrite Hout].
  subst detail.
  destruct r as [body | file | body | body | ]; simpl in *.
  - rewrite txt2img_invocations in Hcalls.
    destruct (txt2img_unavailable app) eqn:Hguard; [discriminate|].
    injection Hcalls as <-.
    rewrite (txt2img_on _ _ _ Hguard). unfold streamed.
    now rewrite Hraise.
  - rewrite (invocations_of_appends _ _ w (upload_image_appends file))
      in Hcalls. discriminate.
  - rewrite img2img_invocations in Hcalls.
    destruct (img2img_unavailable app) eqn:Hguard; [discriminate|].
    unfold opened_image in Hcalls.
    destruct (files w !! _) as [content|] eqn:Hfile; [|discriminate].
    rewrite (img2img_on _ _ _ _ Hguard Hfile).
    destruct (image_open_rgb content) as [m | pil_image]; [discriminate|].
    injection Hcalls as <-. unfold streamed. now rewrite Hraise.
  - rewrite generate_images_invocations in Hcalls.
    destruct (txt2img_unavailable app) eqn:Hguard; [discriminate|].
    injection Hcalls as <-.
    now rewrite (generate_images_raises _ _ _ _ Hguard Hraise).
  - rewrite (nothing_invoked (health_check app) w _ eq_refl) in Hcalls.
    discriminate.
Qed.

(** C9, amended: a request to /v1/images/generations that passes the
    capability guard invokes the pipeline exactly once, with
    [num_inference_steps = 30], [guidance_scale = 7.5],
    [num_images_per_prompt = n] and no negative prompt; a request that
    agrees with it on [prompt], [n] and [response_format] is handled
    identically. *)
Theorem generations_invokes_once (app : App)
    (request : ImageGenerationRequest.t) (w : World) :
  txt2img_unavailable app = false →
  new_invocations (generate_images app request) w =
    [CallTxt2Img
       {| t2i_prompt := ImageGenerationRequest.prompt request;
          t2i_negative_prompt := None;
          t2i_num_inference_steps := 30;
          t2i_guidance_scale := 7.5%float;
          t2i_num_images_per_prompt :=
            Some (ImageGenerationRequest.n request) |}] ∧
  ∀ request',
    ImageGenerationRequest.prompt request' =
      ImageGenerationRequest.prompt request →
    ImageGenerationRequest.n request' = ImageGenerationRequest.n request →
    ImageGenerationRequest.response_format request' =
      ImageGenerationRequest.response_format request →
    generate_images app request' w = generate_images app request w.
Proof.
  intros Hon. split.
  - rewrite generate_images_invocations, Hon. reflexivity.
  - intros request' Hp Hn Hf.
    now rewrite (generate_images_ignores_size app request' request Hp Hn Hf).
Qed.


(** C10: for every /txt2img or /img2img request, whichever optional
    fields its body omits, every pipeline invocation the handler makes
    carries, field by field, the value of the body when the field is
    there and else the default: [negative_prompt = ""],
    [num_inference_steps = 4], [guidance_scale = 7.5] and, for
    /img2img, [strength = 0.5] ([default d field] is [d] for an omitted
    field and the value given otherwise); and the handler does make
    that invocation when the capability is available (and, for
    /img2img, the stored file opens as a picture). *)
Theorem omitted_fields_take_defaults (app : App) (w : World)
    (t2i_body : Txt2ImgInput.body) (i2i_body : Img2ImgInput.body) :
  let t2i_passed := CallTxt2Img
    {| t2i_prompt := Txt2ImgInput.body_prompt t2i_body;
       t2i_negative_prompt :=
         Some (default "" (Txt2ImgInput.body_negative_prompt t2i_body));
       t2i_num_inference_steps :=
         default 4 (Txt2ImgInput.body_num_inference_steps t2i_body);
       t2i_guidance_scale :=
         default 7.5%float (Txt2ImgInput.body_guidance_scale t2i_body);
       t2i_num_images_per_prompt := None |} in
  let i2i_passed pil_image := CallImg2Img
    {| i2i_prompt := Img2ImgInput.body_prompt i2i_body;
       i2i_negative_prompt :=
         default "" (Img2ImgInput.body_negative_prompt i2i_body);
       i2i_image := pil_image;
       i2i_num_inference_steps :=
         default 4 (Img2ImgInput.body_num_inference_steps i2i_body);
       i2i_strength :=
         default 0.5%float (Img2ImgInput.body_strength i2i_body);
       i2i_guidance_scale :=
         default 7.5%float (Img2ImgInput.body_guidance_scale i2i_body) |} in
  (∀ call, call ∈ new_invocations (serve app (PostTxt2Img t2i_body)) w →
     call = t2i_passed) ∧
  (∀ call, call ∈ new_invocations (serve app (PostImg2Img i2i_body)) w →
     ∃ pil_image, call = i2i_passed pil_image) ∧
  (txt2img_unavailable app = false →
     new_invocations (serve app (PostTxt2Img t2i_body)) w = [t2i_passed]) ∧
  (∀ pil_image,
     img2img_unavailable app = false →
     opened_image w (Img2ImgInput.body_file_id i2i_body) = Some pil_image →
     new_invocations (serve app (PostImg2Img i2i_body)) w
       = [i2i_passed pil_image]).
Proof.
  intros t2i_passed i2i_passed. subst t2i_passed i2i_passed. simpl serve.
  rewrite txt2img_invocations, img2img_invocations.
  unfold txt2img_call, img2img_call. cbn [Img2ImgInput.of_body
    Img2ImgInput.file_id Img2ImgInput.prompt Img2ImgInput.negative_prompt
    Img2ImgInput.num_inference_steps Img2ImgInput.strength
    Img2ImgInput.guidance_scale Txt2ImgInput.of_body Txt2ImgInput.prompt
    Txt2ImgInput.negative_prompt Txt2ImgInput.num_inference_steps
    Txt2ImgInput.guidance_scale].
  repeat split.
  - intros call Hin. destruct (txt2img_unavailable app).
    + inversion Hin.
    + apply list_elem_of_singleton in Hin. exact Hin.
  - intros call Hin. destruct (img2img_unavailable app).
    + inversion Hin.
    + destruct (opened_image w _) as [pil_image|].
      * apply list_elem_of_singleton in Hin. now exists pil_image.
      * inversion Hin.
  - now intros ->.
  - now intros pil_image -> ->.
Qed.
End Invocations.

(** * The entries of /v1/images/generations *)

Section Generations.
Context `{Ext : Externals}.

(** A comprehension whose body reads the clock once per element. *)
Lemma for_each_clocked {A B : Type} (f : A → Handler B) (g : nat → A → B) :
  (∀ x w y w', f x w = (Return y, w') →
     y = g (clock_reads w) x ∧ clock_reads w' = S (clock_reads w)) →
  ∀ xs w ys w',
    for_each f xs w = (Return ys, w') →
    length ys = length xs ∧
    ∀ i y, ys !! i = Some y →
      ∃ x, xs !! i = Some x ∧ y = g (clock_reads w + i)%nat x.
Proof.
  intros Hf xs. induction xs as [|x rest IH]; intros w ys w' Hrun.
  - injection Hrun as <- <-. split; [reflexivity|]. intros i y Hy.
    destruct i; discriminate.
  - simpl in Hrun. rewrite bind_run in Hrun.
    destruct (f x w) as [[y0|e] w1] eqn:Hx; [|discriminate].
    destruct (Hf _ _ _ _ Hx) as [-> Hclock].
    rewrite bind_run in Hrun.
    destruct (for_each f rest w1) as [[ys0|e] w2] eqn:Hrest; [|discriminate].
    injection Hrun as <- <-.
    destruct (IH _ _ _ Hrest) as [Hlen Hnth]. split.
    + simpl. now rewrite Hlen.
    + intros [|i] y Hy; simpl in Hy.
      * injection Hy as <-. exists x. split; [reflexivity|].
        now rewrite Nat.add_0_r.
      * destruct (Hnth _ _ Hy) as (x' & Hx' & ->). exists x'.
        split; [exact Hx'|]. rewrite Hclock. f_equal. lia.
Qed.

(** A successful answer of /v1/images/generations, entry by entry. *)
Lemma generate_images_returns app request w entries :
  (generate_images app request w).1 = Return (DataResponse entries) →
  ∃ images,
    run_pipeline (length (invocations w)) (generations_call request)
      = inr images ∧
    length entries = length images ∧
    ∀ i entry, entries !! i = Some entry →
      ∃ image, images !! i = Some image ∧
        entry =
          let id := Uuid.str (Uuid.uuid4 (urandom16 (uuid_draws w))) in
          let created := time_time (clock_reads w + i)%nat in
          if String.eqb (ImageGenerationRequest.response_format request) "url"
          then url_entry id created
          else inline_entry id created image.
Proof.
  destruct (txt2img_unavailable app) eqn:Hguard.
  { rewrite (generate_images_off _ _ _ Hguard). discriminate. }
  unfold generate_images. unfold txt2img_unavailable in Hguard.
  rewrite Hguard. unfold try_except. rewrite bind_run.
  change (async_with OwnLock _ w)
    with (async_with OwnLock (invoke (generations_call request)) w).
  rewrite locked_call.
  destruct (run_pipeline _ _) as [message | images]; [discriminate|].
  intros Hrun. exists images. split; [reflexivity|].
  rewrite bind_run in Hrun. unfold uuid4_str at 1 in Hrun.
  rewrite bind_run in Hrun.
  set (id := Uuid.str _) in *.
  destruct (String.eqb _ _).
  - match type of Hrun with context [for_each ?f images ?w2] =>
      destruct (for_each f images w2) as [[ys|e] w3] eqn:Hloop;
        [|discriminate];
      pose proof (for_each_clocked f (fun k _ => url_entry id (time_time k)))
        as Hspec
    end.
    injection Hrun as <-.
    eapply Hspec in Hloop.
    + destruct Hloop as [Hlen Hnth]. split; [exact Hlen|].
      intros i entry Hentry. destruct (Hnth _ _ Hentry) as (x & Hx & ->).
      now exists x.
    + intros x v y v'. unfold save_image_and_get_url.
      rewrite !bind_run. unfold int_time at 1. rewrite !bind_run.
      unfold write_file. destruct (write_error _); [discriminate|].
      cbv beta iota zeta. unfold mret, handler_ret. intros Heq.
      outcome_and_world Heq. injection Heq as <-. subst v'.
      split; reflexivity.
  - match type of Hrun with context [for_each ?f images ?w2] =>
      destruct (for_each f images w2) as [[ys|e] w3] eqn:Hloop;
        [|discriminate];
      pose proof (for_each_clocked f
                    (fun k image => inline_entry id (time_time k) image))
        as Hspec
    end.
    injection Hrun as <-.
    eapply Hspec in Hloop.
    + destruct Hloop as [Hlen Hnth]. split; [exact Hlen|].
      intros i entry Hentry. destruct (Hnth _ _ Hentry) as (x & Hx & ->).
      now exists x.
    + intros x v y v'. rewrite !bind_run. unfold int_time at 1.
      unfold encode_image_to_base64.
      cbv beta iota zeta. unfold mret, handler_ret. intros Heq.
      outcome_and_world Heq. injection Heq as <-. subst v'.
      split; reflexivity.
Qed.

(** In the "url" format every entry names the same file: two entries
    with the same [created] are the same entry. *)
Lemma url_entries_differ_by_created_only app request w entries :
  ImageGenerationRequest.response_format request = "url" →
  (generate_images app request w).1 = Return (DataResponse entries) →
  ∀ i j ei ej,
    entries !! i = Some ei → entries !! j = Some ej →
    dict_get "created" ei = dict_get "created" ej → ei = ej.
Proof.
  intros Hurl Hrun i j ei ej Hi Hj Hcreated.
  destruct (generate_images_returns _ _ _ _ Hrun) as (images & _ & _ & Hnth).
  destruct (Hnth _ _ Hi) as (xi & _ & ->).
  destruct (Hnth _ _ Hj) as (xj & _ & ->).
  rewrite Hurl in *. simpl in *. now injection Hcreated as ->.
Qed.

End Generations.

(** * Uploads: paths and stored bytes *)

Section Paths.

Lemma list_ascii_of_append s t :
  list_ascii_of_string (s +:+ t) =
  (list_ascii_of_string s ++ list_ascii_of_string t)%list.
Proof. induction s as [|c s IH]; simpl; [reflexivity|now rewrite IH]. Qed.

Lemma append_inv_tail s1 s2 t : s1 +:+ t = s2 +:+ t → s1 = s2.
Proof.
  intros Heq. apply (f_equal list_ascii_of_string) in Heq.
  rewrite !list_ascii_of_append in Heq. apply app_inv_tail in Heq.
  apply (f_equal string_of_list_ascii) in Heq.
  now rewrite !string_of_list_ascii_of_string in Heq.
Qed.

Lemma is_absolute_png s : Py.is_absolute (s +:+ ".png") = Py.is_absolute s.
Proof. destruct s as [|c s]; reflexivity. Qed.

Lemma is_absolute_head s :
  Py.is_absolute s = true → ∃ s', s = String "/" s'.
Proof.
  destruct s as [|c s]; [discriminate|].
  destruct c as [[] [] [] [] [] [] [] []]; try discriminate.
  intros _. now exists s.
Qed.

Lemma upload_path_unfold file_id :
  upload_path file_id =
  if Py.is_absolute file_id then file_id +:+ ".png"
  else "uploaded_images/" +:+ (file_id +:+ ".png").
Proof.
  unfold upload_path, Py.path_join. rewrite is_absolute_png.
  now destruct (Py.is_absolute file_id).
Qed.

(** Different identifiers are stored in different files. *)
Lemma upload_path_inj a b : upload_path a = upload_path b → a = b.
Proof.
  rewrite !upload_path_unfold.
  destruct (Py.is_absolute a) eqn:Ha, (Py.is_absolute b) eqn:Hb; intros Heq.
  - now apply append_inv_tail in Heq.
  - apply is_absolute_head in Ha as [a' ->]. discriminate.
  - apply is_absolute_head in Hb as [b' ->]. discriminate.
  - injection Heq as Heq. exact (append_inv_tail a b ".png" Heq).
Qed.

Lemma hex_char_not_sep d : Uuid.hex_char d ≠ "/"%char.
Proof.
  unfold Uuid.hex_char.
  repeat match goal with
         | |- context [match ?x with _ => _ end] => destruct x
         end; discriminate.
Qed.

(** An identifier begins with a hexadecimal digit. *)
Lemma uuid_str_head u :
  ∃ d s, Uuid.str u = String (Uuid.hex_char d) s.
Proof.
  unfold Uuid.str.
  change (Uuid.hex_from 32 u)
    with (String (Uuid.hex_char (N.land (N.shiftr u (4 * N.of_nat 31)) 15))
                 (Uuid.hex_from 31 u)).
  eexists _, _. reflexivity.
Qed.

Lemma uuid_str_relative u : Py.is_absolute (Uuid.str u) = false.
Proof.
  destruct (uuid_str_head u) as (d & s & ->).
  pose proof (hex_char_not_sep d) as Hd. simpl.
  destruct (Uuid.hex_char d) as [[] [] [] [] [] [] [] []];
    try reflexivity. congruence.
Qed.

(** A generated picture is never written over an upload. *)
Lemma output_path_is_no_upload u file_id :
  Py.path_join "output_images" (Uuid.str u +:+ ".png") ≠ upload_path file_id.
Proof.
  unfold Py.path_join. rewrite is_absolute_png, uuid_str_relative.
  rewrite upload_path_unfold. simpl.
  destruct (Py.is_absolute file_id) eqn:Habs; [|discriminate].
  apply is_absolute_head in Habs as [s ->]. discriminate.
Qed.

End Paths.

Section UnknownUploads.
Context `{Ext : Externals}.

Lemma plain_name_relative s : plain_name s = true → Py.is_absolute s = false.
Proof.
  destruct s as [|c s]; [reflexivity|]. simpl.
  destruct (Ascii.eqb_spec c "/") as [->|Hc]; [discriminate|]. intros _.
  destruct c as [[] [] [] [] [] [] [] []]; try reflexivity. congruence.
Qed.

Lemma upload_path_plain file_id :
  plain_name file_id = true →
  upload_path file_id = "uploaded_images/" +:+ file_id +:+ ".png".
Proof.
  intros Hplain. rewrite upload_path_unfold.
  now rewrite (plain_name_relative _ Hplain).
Qed.


End UnknownUploads.

Section Uploads.
Context `{Ext : Externals}.

Lemma upload_image_outcome file w :
  (upload_image file w).1 =
  match write_error (write_attempts w) with
  | Some message => Raise (HTTPException 500 message)
  | None => Return (JsonResponse [("file_id", JStr (next_uuid w))])
  end.
Proof.
  unfold upload_image, try_except. rewrite bind_run.
  unfold uuid4_str at 1. rewrite bind_run. unfold emit at 1.
  rewrite bind_run. unfold write_file.
  now destruct (write_error _).
Qed.

Lemma upload_image_files file w :
  files (upload_image file w).2 =
  match write_error (write_attempts w) with
  | Some _ => files w
  | None => <[upload_path (next_uuid w) := file]> (files w)
  end.
Proof.
  unfold upload_image, try_except. rewrite bind_run.
  unfold uuid4_str at 1. rewrite bind_run. unfold emit at 1.
  rewrite bind_run. unfold write_file.
  now destruct (write_error _).
Qed.

Lemma upload_image_draws file w :
  uuid_draws (upload_image file w).2 = S (uuid_draws w).
Proof.
  unfold upload_image, try_except. rewrite bind_run.
  unfold uuid4_str at 1. rewrite bind_run. unfold emit at 1.
  rewrite bind_run. unfold write_file.
  now destruct (write_error _).
Qed.

Lemma generate_images_on app request w :
  txt2img_unavailable app = false →
  generate_images app request w =
  match run_pipeline (length (invocations w)) (generations_call request) with
  | inl _ =>
      (Raise (HTTPException 500 "Internal server error."),
       after_call OwnLock (generations_call request) w)
  | inr images =>
      try_except (build_entries request (next_uuid w) images)
        (fun _ => raise (HTTPException 500 "Internal server error."))
        (uuid4_str (after_call OwnLock (generations_call request) w)).2
  end.
Proof.
  intros Hon. unfold generate_images.
  unfold txt2img_unavailable in Hon. rewrite Hon.
  unfold try_except at 1. rewrite bind_run.
  change (async_with OwnLock _ w)
    with (async_with OwnLock (invoke (generations_call request)) w).
  rewrite locked_call.
  now destruct (run_pipeline _ _) as [message | images].
Qed.

Lemma preserves_write_file_draws path content :
  Preserves uuid_draws (write_file path content).
Proof.
  intros w. unfold write_file. now destruct (write_error _).
Qed.

Lemma preserves_write_file_elsewhere path content other :
  path ≠ other →
  Preserves (fun w => files w !! other) (write_file path content).
Proof.
  intros Hne w. unfold write_file.
  destruct (write_error _); [reflexivity|].
  cbn [snd files]. now apply lookup_insert_ne.
Qed.

Lemma preserves_build_entries {X : Type} (obs : World → X) request id images :
  Preserves obs int_time →
  (∀ image, Preserves obs
     (write_file (Py.path_join "output_images" (id +:+ ".png"))
        (png_bytes image))) →
  Preserves obs
    (try_except (build_entries request id images)
       (fun _ => raise (HTTPException 500 "Internal server error."))).
Proof.
  intros Htime Hwrite.
  apply preserves_try_except; [|intros e; apply preserves_raise].
  unfold build_entries.
  apply preserves_bind; [|intros; apply preserves_ret].
  destruct (String.eqb _ _); apply preserves_for_each; intros image;
    (apply preserves_bind; [exact Htime|]); intros created.
  - apply preserves_bind; [|intros; apply preserves_ret].
    unfold save_image_and_get_url.
    apply preserves_bind; [apply Hwrite|]. intros; apply preserves_ret.
  - apply preserves_bind; [|intros; apply preserves_ret].
    intros w. reflexivity.
Qed.

Lemma streamed_files call w : files (streamed call w).2 = files w.
Proof.
  unfold streamed. now destruct (run_pipeline _ _) as [m | [|image rest]].
Qed.

Lemma streamed_draws call w :
  (uuid_draws w ≤ uuid_draws (streamed call w).2)%nat.
Proof.
  unfold streamed.
  destruct (run_pipeline _ _) as [m | [|image rest]]; simpl; lia.
Qed.

(** No handler forgets a [uuid4()] draw. *)
Lemma serve_draws_grow app r w :
  (uuid_draws w ≤ uuid_draws (serve app r w).2)%nat.
Proof.
  destruct r as [body | file | body | body | ]; simpl serve.
  - destruct (txt2img_unavailable app) eqn:Hguard.
    + now rewrite (txt2img_off _ _ _ Hguard).
    + rewrite (txt2img_on _ _ _ Hguard). apply streamed_draws.
  - rewrite upload_image_draws. lia.
  - destruct (img2img_unavailable app) eqn:Hguard.
    + now rewrite (img2img_off _ _ _ Hguard).
    + destruct (files w !! upload_path
                  (Img2ImgInput.file_id (Img2ImgInput.of_body body)))
        as [content|] eqn:Hfile.
      * rewrite (img2img_on _ _ _ _ Hguard Hfile).
        destruct (image_open_rgb content); [reflexivity|].
        apply streamed_draws.
      * now rewrite (img2img_missing _ _ _ Hguard Hfile).
  - destruct (txt2img_unavailable app) eqn:Hguard.
    + now rewrite (generate_images_off _ _ _ Hguard).
    + rewrite (generate_images_on _ _ _ Hguard).
      destruct (run_pipeline _ _) as [m | images]; [reflexivity|].
      rewrite (preserves_build_entries uuid_draws).
      * simpl. lia.
      * intros v. reflexivity.
      * intros image. apply preserves_write_file_draws.
  - reflexivity.
Qed.

Lemma serve_all_draws_grow app rs w :
  (uuid_draws w ≤ uuid_draws (serve_all app rs w))%nat.
Proof.
  revert w. induction rs as [|r rest IH]; intros w; simpl; [lia|].
  etrans; [apply (serve_draws_grow app r w)|apply IH].
Qed.

(** A stored upload survives a request, unless the request draws the
    identifier of the upload again. *)
Lemma serve_keeps_upload app r w file_id :
  (∀ k, (uuid_draws w ≤ k < uuid_draws (serve app r w).2)%nat →
        Uuid.str (Uuid.uuid4 (urandom16 k)) ≠ file_id) →
  files (serve app r w).2 !! upload_path file_id =
  files w !! upload_path file_id.
Proof.
  intros Hfresh.
  destruct r as [body | file | body | body | ]; simpl serve in *.
  - destruct (txt2img_unavailable app) eqn:Hguard.
    + now rewrite (txt2img_off _ _ _ Hguard).
    + now rewrite (txt2img_on _ _ _ Hguard), streamed_files.
  - rewrite upload_image_files. rewrite upload_image_draws in Hfresh.
    destruct (write_error _); [reflexivity|].
    apply lookup_insert_ne. intros Heq. apply upload_path_inj in Heq.
    apply (Hfresh (uuid_draws w)); [lia|exact Heq].
  - destruct (img2img_unavailable app) eqn:Hguard.
    + now rewrite (img2img_off _ _ _ Hguard).
    + destruct (files w !! upload_path
                  (Img2ImgInput.file_id (Img2ImgInput.of_body body)))
        as [content|] eqn:Hfile.
      * rewrite (img2img_on _ _ _ _ Hguard Hfile).
        destruct (image_open_rgb content); [reflexivity|].
        now rewrite streamed_files.
      * now rewrite (img2img_missing _ _ _ Hguard Hfile).
  - destruct (txt2img_unavailable app) eqn:Hguard.
    + now rewrite (generate_images_off _ _ _ Hguard).
    + rewrite (generate_images_on _ _ _ Hguard).
      destruct (run_pipeline _ _) as [m | images]; [reflexivity|].
      rewrite (preserves_build_entries
                 (fun w => files w !! upload_path file_id)).
      * reflexivity.
      * intros v. reflexivity.
      * intros image. apply preserves_write_file_elsewhere.
        apply output_path_is_no_upload.
  - reflexivity.
Qed.

Lemma serve_all_keeps_upload app rs w file_id :
  (∀ k, (uuid_draws w ≤ k < uuid_draws (serve_all app rs w))%nat →
        Uuid.str (Uuid.uuid4 (urandom16 k)) ≠ file_id) →
  files (serve_all app rs w) !! upload_path file_id =
  files w !! upload_path file_id.
Proof.
  revert w. induction rs as [|r rest IH]; intros w Hfresh; simpl;
    [reflexivity|].
  simpl in Hfresh.
  pose proof (serve_draws_grow app r w) as Hstep.
  pose proof (serve_all_draws_grow app rest (serve app r w).2) as Hrest.
  rewrite IH.
  - apply serve_keeps_upload. intros k Hk. apply Hfresh. lia.
  - intros k Hk. apply Hfresh. lia.
Qed.

(** C5: when /upload answers with a [file_id], the file /img2img looks
    up for that [file_id] holds exactly the uploaded bytes, also after
    any requests served in between, as long as no later [uuid4()]
    yields the same identifier; an available /img2img then hands the
    pipeline the picture opened from exactly these bytes. *)
Theorem upload_round_trip (app : App) (file : list byte) (w : World)
    (file_id : string) (between : list Request) :
  (upload_image file w).1
    = Return (JsonResponse [("file_id", JStr file_id)]) →
  let stored := (upload_image file w).2 in
  let later := serve_all app between stored in
  (∀ k, (uuid_draws stored ≤ k < uuid_draws later)%nat →
        Uuid.str (Uuid.uuid4 (urandom16 k)) ≠ file_id) →
  files later !! upload_path file_id = Some file ∧
  ∀ input pil_image,
    Img2ImgInput.file_id input = file_id →
    img2img_unavailable app = false →
    image_open_rgb file = inr pil_image →
    new_invocations (img2img app input) later
      = [img2img_call input pil_image].
Proof.
  intros Hup stored later Hfresh.
  assert (Hstored : files later !! upload_path file_id = Some file).
  { subst later. rewrite serve_all_keeps_upload; [|exact Hfresh].
    subst stored. rewrite upload_image_files.
    rewrite upload_image_outcome in Hup.
    destruct (write_error _); [discriminate|].
    injection Hup as <-. apply lookup_insert_eq. }
  split; [exact Hstored|].
  intros input pil_image <- Hon Hopen.
  rewrite img2img_invocations, Hon. unfold opened_image.
  now rewrite Hstored, Hopen.
Qed.

End Uploads.

(** * One pipeline invocation at a time *)

Section LoopFacts.
Context `{Ext : Externals}.
Variable app : App.
Import Loop.

Lemma atomic_from_app running a b :
  atomic_from running a = true →
  atomic_from false b = true →
  atomic_from running (a ++ b) = true.
Proof.
  revert running. induction a as [|ev a IH]; intros running Ha Hb.
  - destruct running; [discriminate|exact Hb].
  - destruct ev; simpl in *;
      try (apply andb_true_iff in Ha as [-> Ha]; simpl); now apply IH.
Qed.

Lemma events_of_trace r w events :
  trace (serve app r w).2 = (trace w ++ events)%list →
  handler_events app r w = events.
Proof.
  intros Htrace. unfold handler_events. rewrite Htrace.
  apply drop_app_length.
Qed.

Lemma events_of_unchanged r w o :
  serve app r w = (o, w) → handler_events app r w = [].
Proof.
  intros Hrun. apply events_of_trace. rewrite Hrun. simpl.
  now rewrite app_nil_r.
Qed.

Lemma streamed_trace call w :
  trace (streamed call w).2 =
  (trace w ++ [EvAcquire GpuLock; EvCall call; EvDone; EvRelease GpuLock])%list.
Proof.
  unfold streamed. now destruct (run_pipeline _ _) as [m | [|image rest]].
Qed.

(** What a handler goes through: nothing, one wait for the upload, or
    one pipeline call inside one lock. *)
Lemma handler_events_cases r w :
  handler_events app r w = [] ∨
  handler_events app r w = [EvAwait] ∨
  ∃ l call,
    handler_events app r w = [EvAcquire l; EvCall call; EvDone; EvRelease l].
Proof.
  destruct r as [body | file | body | body | ].
  - destruct (txt2img_unavailable app) eqn:Hguard.
    + left. eapply events_of_unchanged. simpl. now apply txt2img_off.
    + right. right. eexists _, _. apply events_of_trace. simpl.
      rewrite (txt2img_on _ _ _ Hguard). apply streamed_trace.
  - right. left. apply events_of_trace, upload_image_appends.
  - destruct (img2img_unavailable app) eqn:Hguard.
    + left. eapply events_of_unchanged. simpl. now apply img2img_off.
    + destruct (files w !! upload_path
                  (Img2ImgInput.file_id (Img2ImgInput.of_body body)))
        as [content|] eqn:Hfile.
      * pose proof (img2img_on _ _ _ _ Hguard Hfile) as Hrun.
        destruct (image_open_rgb content) as [m | pil_image].
        -- left. eapply events_of_unchanged. simpl. exact Hrun.
        -- right. right. eexists _, _. apply events_of_trace. simpl.
           rewrite Hrun. apply streamed_trace.
      * left. eapply events_of_unchanged. simpl.
        now apply img2img_missing.
  - destruct (txt2img_unavailable app) eqn:Hguard.
    + left. eapply events_of_unchanged. simpl.
      now apply generate_images_off.
    + right. right. eexists _, _. apply events_of_trace.
      apply (generate_images_appends _ _ Hguard).
  - left. eapply events_of_unchanged. reflexivity.
Qed.

(** In every handler the pipeline call is atomic. *)
Lemma handler_events_atomic r w :
  calls_are_atomic (handler_events app r w) = true.
Proof.
  destruct (handler_events_cases r w) as [-> | [-> | (l & call & ->)]];
    reflexivity.
Qed.

Lemma all_outside_ok s : all_outside s → loop_ok s.
Proof.
  intros Hout i t Hi. destruct (Hout _ _ Hi) as [Hin Hcode].
  split; rewrite Hin; [exact Hcode|discriminate].
Qed.

(** While task [i] runs, the other tasks are outside the pipeline. *)
Lemma others_outside s i j tj :
  loop_ok s → current s = Some i → j ≠ i → tasks s !! j = Some tj →
  in_pipeline tj = false ∧ atomic_from false (code tj) = true.
Proof.
  intros Hok Hcur Hne Hj. destruct (Hok _ _ Hj) as [Hcode Hin].
  destruct (in_pipeline tj); [|now split].
  destruct Hin as [Hc _]; [reflexivity|]. congruence.
Qed.

(** While no task runs, all tasks are outside the pipeline. *)
Lemma nobody_inside s :
  loop_ok s → current s = None → all_outside s.
Proof.
  intros Hok Hcur j tj Hj. destruct (Hok _ _ Hj) as [Hcode Hin].
  destruct (in_pipeline tj); [|now split].
  destruct Hin as [Hc _]; [reflexivity|]. congruence.
Qed.

Lemma all_outside_set s i t' cur lk :
  loop_ok s → current s = Some i →
  in_pipeline t' = false → atomic_from false (code t') = true →
  all_outside {| tasks := <[i := t']> (tasks s); current := cur;
                 gpu_lock := lk |}.
Proof.
  intros Hok Hcur Hin Hcode j tj Hj. simpl in Hj.
  apply list_lookup_insert_Some in Hj as [(<- & <- & _) | [Hne Hj]].
  - now split.
  - eapply others_outside; eauto.
Qed.

Lemma all_outside_put s i t' l lk cur :
  loop_ok s → current s = Some i →
  in_pipeline t' = false → atomic_from false (code t') = true →
  all_outside (put i t' l lk cur s).
Proof.
  intros Hok Hcur Hin Hcode. destruct l; now apply all_outside_set.
Qed.

Lemma all_outside_wake first s : all_outside s → all_outside (wake first s).
Proof.
  intros Hout. destruct first as [k|]; [|exact Hout].
  intros j tj Hj. simpl in Hj.
  destruct (decide (k = j)) as [->|Hne].
  - rewrite list_lookup_alter_eq in Hj.
    destruct (tasks s !! j) as [t|] eqn:Ht; [|discriminate].
    injection Hj as <-. exact (Hout _ _ Ht).
  - rewrite list_lookup_alter_ne in Hj by done. exact (Hout _ _ Hj).
Qed.

Lemma atomic_tail running ev rest :
  atomic_from running (ev :: rest) = true →
  match ev with
  | EvDone => atomic_from false rest = true
  | EvCall _ => running = false ∧ atomic_from true rest = true
  | _ => running = false ∧ atomic_from false rest = true
  end.
Proof.
  destruct ev; simpl; try (intros Ha; exact Ha);
    intros Ha; apply andb_true_iff in Ha as [Hr Ha];
    apply negb_true_iff in Hr; now split.
Qed.

(** The running task goes through one event. *)
Lemma exec_ok s i t :
  loop_ok s → current s = Some i → tasks s !! i = Some t →
  loop_ok (exec i t s).
Proof.
  intros Hok Hcur Hi. destruct (Hok _ _ Hi) as [Hcode _].
  unfold exec. destruct (code t) as [|ev rest] eqn:Hc.
  - simpl in Hcode. apply negb_true_iff in Hcode.
    now apply all_outside_ok, all_outside_set.
  - pose proof (atomic_tail _ _ _ Hcode) as Htail.
    destruct ev as [l | l | call | | ].
    + destruct Htail as [Hin Hrest].
      destruct (status t);
        try (destruct (acquire i (get_lock l t s)) as [lk [|]]);
        apply all_outside_ok, all_outside_put; simpl; auto;
        rewrite Hc; simpl; exact Hrest.
    + destruct Htail as [Hin Hrest].
      destruct (release (get_lock l t s)) as [lk first].
      apply all_outside_ok, all_outside_wake, all_outside_put; auto.
    + destruct Htail as [Hin Hrest].
      intros j tj Hj. simpl in Hj |- *.
      apply list_lookup_insert_Some in Hj as [(<- & <- & _) | [Hne Hj]].
      * split; simpl; auto.
      * destruct (others_outside s i j tj Hok Hcur) as [Hout Hcj]; auto.
        split; rewrite Hout; [exact Hcj|discriminate].
    + now apply all_outside_ok, all_outside_set.
    + destruct Htail as [Hin Hrest].
      now apply all_outside_ok, all_outside_set.
Qed.

Lemma step_ok s input : loop_ok s → loop_ok (step app s input).
Proof.
  intros Hok. destruct input as [r w | i | | i]; simpl.
  - intros j tj Hj. simpl in Hj |- *.
    apply lookup_snoc_Some in Hj as [[_ Hj] | [-> <-]].
    + exact (Hok _ _ Hj).
    + split; simpl; [apply handler_events_atomic|discriminate].
  - destruct (current s) eqn:Hcur; [exact Hok|].
    destruct (tasks s !! i) as [t|]; [|exact Hok].
    destruct (runnable (status t)); [|exact Hok].
    apply all_outside_ok. intros j tj Hj.
    exact (nobody_inside s Hok Hcur j tj Hj).
  - destruct (current s) as [i|] eqn:Hcur; [|exact Hok].
    destruct (tasks s !! i) as [t|] eqn:Hi; [|exact Hok].
    now apply exec_ok.
  - destruct (tasks s !! i) as [t|] eqn:Hi; [|exact Hok].
    destruct (status t) eqn:Hst; try exact Hok.
    intros j tj Hj. simpl in Hj |- *.
    apply list_lookup_insert_Some in Hj as [(<- & <- & _) | [Hne Hj]].
    + destruct (Hok _ _ Hi) as [Hcode Hin]. split; simpl; [exact Hcode|].
      intros Hp. destruct (Hin Hp) as [_ Hready]. congruence.
    + exact (Hok _ _ Hj).
Qed.

Lemma run_ok inputs s : loop_ok s → loop_ok (run app inputs s).
Proof.
  revert s. induction inputs as [|input rest IH]; intros s Hok;
    [exact Hok|].
  simpl. apply IH. now apply step_ok.
Qed.

Lemma idle_ok : loop_ok idle.
Proof. intros i t Hi. destruct i; discriminate. Qed.

(** Two tasks inside a pipeline call are the same task. *)
Lemma inside_is_unique s i j ti tj :
  loop_ok s →
  tasks s !! i = Some ti → tasks s !! j = Some tj →
  in_pipeline ti = true → in_pipeline tj = true → i = j.
Proof.
  intros Hok Hi Hj Hpi Hpj.
  destruct (Hok _ _ Hi) as [_ Hini]. destruct (Hok _ _ Hj) as [_ Hinj].
  destruct (Hini Hpi) as [Hci _]. destruct (Hinj Hpj) as [Hcj _].
  congruence.
Qed.

Lemma filter_none {A : Type} (P : A → Prop) `{∀ x, Decision (P x)}
    (l : list A) :
  (∀ i x, l !! i = Some x → ¬ P x) → filter P l = [].
Proof.
  induction l as [|a l IH]; intros Hnone; [reflexivity|].
  rewrite filter_cons. destruct (decide (P a)) as [Ha|Ha].
  - destruct (Hnone 0%nat a eq_refl Ha).
  - apply IH. intros i x Hx. exact (Hnone (S i) x Hx).
Qed.

Lemma filter_at_most_one {A : Type} (P : A → Prop) `{∀ x, Decision (P x)}
    (l : list A) :
  (∀ i j x y, l !! i = Some x → l !! j = Some y → P x → P y → i = j) →
  (length (filter P l) ≤ 1)%nat.
Proof.
  induction l as [|a l IH]; intros Huniq; [simpl; lia|].
  rewrite filter_cons. destruct (decide (P a)) as [Ha|Ha].
  - rewrite (filter_none P l); [simpl; lia|].
    intros i x Hx Hp.
    discriminate (Huniq 0%nat (S i) a x eq_refl Hx Ha Hp).
  - apply IH. intros i j x y Hx Hy Hpx Hpy.
    injection (Huniq (S i) (S j) x y Hx Hy Hpx Hpy) as ->. reflexivity.
Qed.

(** C1: whatever requests arrive and however the loop interleaves
    their handlers, at most one pipeline invocation is executing in
    every state the server reaches. *)
Theorem one_pipeline_invocation_at_a_time (inputs : list Input) :
  (executing (run app inputs idle) ≤ 1)%nat.
Proof.
  unfold executing. apply filter_at_most_one.
  intros i j ti tj Hi Hj Hpi Hpj.
  eapply inside_is_unique; eauto. apply run_ok, idle_ok.
Qed.

End LoopFacts.

(** * The statements at work on concrete servers *)

Section OnAWorkingServer.
#[local] Existing Instance Demo.working.

Example uuid_of_zero : Uuid.str (Uuid.uuid4 0) = first_id.
Proof. vm_compute. reflexivity. Qed.

Example uuid_of_ones :
  Uuid.str (Uuid.uuid4 (2 ^ 128 - 1)) = "ffffffff-ffff-4fff-bfff-ffffffffffff".
Proof. vm_compute. reflexivity. Qed.

Example env_flags :
  get_env_bool {[ "ENABLE_TXT2IMG" := "YES" ]} "ENABLE_TXT2IMG" false = true ∧
  get_env_bool {[ "ENABLE_TXT2IMG" := "0" ]} "ENABLE_TXT2IMG" true = false ∧
  get_env_bool ∅ "ENABLE_TXT2IMG" true = true ∧
  get_env_bool ∅ "XFORMERS_ENABLED" false = false.
Proof. vm_compute. auto. Qed.

Example upload_paths :
  upload_path first_id
    = "uploaded_images/00000000-0000-4000-8000-000000000000.png" ∧
  upload_path "/tmp/x" = "/tmp/x.png".
Proof. split; reflexivity. Qed.

(** C3 on a server started with [ENABLE_TXT2IMG=0]. *)
Lemma disabled_capability_is_refused_witness :
  capability_disabled Demo.app_without_txt2img (PostGenerations three_please)
    = true ∧
  ∃ detail,
    serve Demo.app_without_txt2img (PostGenerations three_please) Demo.start
      = (Raise (HTTPException 503 detail), Demo.start) ∧
    http_status
      (serve Demo.app_without_txt2img (PostGenerations three_please)
         Demo.start).1 = 503 ∧
    http_error_body
      (serve Demo.app_without_txt2img (PostGenerations three_please)
         Demo.start).1 = Some [("detail", JStr detail)] ∧
    new_invocations
      (serve Demo.app_without_txt2img (PostGenerations three_please))
      Demo.start = [].
Proof.
  split; [vm_compute; reflexivity|].
  apply (disabled_capability_is_refused Demo.app_without_txt2img
           (PostGenerations three_please) Demo.start).
  vm_compute. reflexivity.
Defined.



(** C6 for the sizes 512x512 and 1024x1024. *)
Lemma size_does_not_interfere_witness :
  generate_images Demo.app Demo.three_urls Demo.start =
  generate_images Demo.app
    {| ImageGenerationRequest.prompt := "a lighthouse at dusk";
       ImageGenerationRequest.n := 3;
       ImageGenerationRequest.size := "1024x1024";
       ImageGenerationRequest.response_format := "url" |} Demo.start.
Proof.
  apply (size_does_not_interfere Demo.app Demo.three_urls
           {| ImageGenerationRequest.prompt := "a lighthouse at dusk";
              ImageGenerationRequest.n := 3;
              ImageGenerationRequest.size := "1024x1024";
              ImageGenerationRequest.response_format := "url" |}
           Demo.start); reflexivity.
Defined.

(** C9 on a server with txt2img available. *)
Lemma generations_invokes_once_witness :
  txt2img_unavailable Demo.app = false ∧
  new_invocations (generate_images Demo.app Demo.three_urls) Demo.start =
    [CallTxt2Img
       {| t2i_prompt := "a lighthouse at dusk";
          t2i_negative_prompt := None;
          t2i_num_inference_steps := 30;
          t2i_guidance_scale := 7.5%float;
          t2i_num_images_per_prompt := Some 3 |}].
Proof.
  split; [vm_compute; reflexivity|].
  apply (generations_invokes_once Demo.app Demo.three_urls Demo.start).
  vm_compute. reflexivity.
Defined.

(** With txt2img switched off, /v1/images/generations does not invoke
    the pipeline at all. *)
Lemma generations_may_not_invoke :
  ¬ (∃ call,
       new_invocations
         (generate_images Demo.app_without_txt2img Demo.three_urls)
         Demo.start = [call]).
Proof. intros [call Hcall]. vm_compute in Hcall. discriminate. Qed.

(** C10 after one upload, for a /txt2img body that omits only
    [num_inference_steps] and an /img2img body that omits only
    [strength] and [negative_prompt]. *)
Lemma omitted_fields_take_defaults_witness :
  let t2i_body :=
    {| Txt2ImgInput.body_prompt := "a lighthouse at dusk";
       Txt2ImgInput.body_negative_prompt := Some "fog";
       Txt2ImgInput.body_num_inference_steps := None;
       Txt2ImgInput.body_guidance_scale := Some 2%float |} in
  let i2i_body :=
    {| Img2ImgInput.body_prompt := "a lighthouse at dusk";
       Img2ImgInput.body_negative_prompt := None;
       Img2ImgInput.body_file_id := first_id;
       Img2ImgInput.body_num_inference_steps := Some 8;
       Img2ImgInput.body_strength := None;
       Img2ImgInput.body_guidance_scale := Some 2%float |} in
  new_invocations (serve Demo.app (PostTxt2Img t2i_body)) uploaded =
    [CallTxt2Img
       {| t2i_prompt := "a lighthouse at dusk";
          t2i_negative_prompt := Some "fog";
          t2i_num_inference_steps := 4;
          t2i_guidance_scale := 2%float;
          t2i_num_images_per_prompt := None |}] ∧
  new_invocations (serve Demo.app (PostImg2Img i2i_body)) uploaded =
    [CallImg2Img
       {| i2i_prompt := "a lighthouse at dusk";
          i2i_negative_prompt := "";
          i2i_image := 2%nat;
          i2i_num_inference_steps := 8;
          i2i_strength := 0.5%float;
          i2i_guidance_scale := 2%float |}].
Proof.
  intros t2i_body i2i_body.
  destruct (omitted_fields_take_defaults Demo.app uploaded t2i_body i2i_body)
    as (_ & _ & Ht2i & Hi2i).
  split.
  - apply Ht2i. vm_compute. reflexivity.
  - apply Hi2i; vm_compute; reflexivity.
Defined.

(** All three pictures went to one file, which holds the last one. *)
Example three_pictures_one_file :
  let after := (generate_images Demo.app Demo.three_urls Demo.start).2 in
  map fst (map_to_list (files after))
    = ["output_images/00000000-0000-4000-8000-000000000000.png"] ∧
  files after !! "output_images/00000000-0000-4000-8000-000000000000.png"
    = Some (png_bytes 2%nat).
Proof. vm_compute. split; reflexivity. Qed.

(** C5 with four requests served between the upload and the lookup. *)
Lemma upload_round_trip_witness :
  files (serve_all Demo.app in_between uploaded) !! upload_path first_id
    = Some [x01; x02]%byte ∧
  new_invocations
    (img2img Demo.app (Img2ImgInput.of_body (prompt_and_file first_id)))
    (serve_all Demo.app in_between uploaded)
    = [img2img_call (Img2ImgInput.of_body (prompt_and_file first_id)) 2%nat].
Proof.
  destruct (upload_round_trip Demo.app [x01; x02]%byte Demo.start
              first_id in_between) as [Hbytes Hcall].
  - vm_compute. reflexivity.
  - intros k Hk.
    assert (Hrange : (1 ≤ k < 4)%nat) by exact Hk.
    destruct k as [|[|[|[|k]]]]; try lia; vm_compute; discriminate.
  - split; [exact Hbytes|]. apply Hcall; reflexivity.
Defined.

(** A request in the middle of its pipeline call, and the lock it
    holds: /txt2img holds [gpu_lock], /v1/images/generations does
    not. *)
Example txt2img_runs_under_gpu_lock :
  let s := Loop.run Demo.app
             [Loop.Arrive (PostTxt2Img only_prompt) Demo.start;
              Loop.Pick 0; Loop.Step; Loop.Step] Loop.idle in
  Loop.executing s = 1%nat ∧ Loop.locked (Loop.gpu_lock s) = true.
Proof. vm_compute. split; reflexivity. Qed.

Example generations_runs_without_gpu_lock :
  let s := Loop.run Demo.app
             [Loop.Arrive (PostGenerations three_please) Demo.start;
              Loop.Pick 0; Loop.Step; Loop.Step] Loop.idle in
  Loop.executing s = 1%nat ∧ Loop.locked (Loop.gpu_lock s) = false.
Proof. vm_compute. split; reflexivity. Qed.

(** Two requests in flight: the loop does not resume the second while
    the first is inside its call. *)
Example second_request_has_to_wait :
  let s := Loop.run Demo.app
             [Loop.Arrive (PostGenerations three_please) Demo.start;
              Loop.Arrive (PostTxt2Img only_prompt) Demo.start;
              Loop.Pick 0; Loop.Step; Loop.Step;
              Loop.Pick 1] Loop.idle in
  Loop.executing s = 1%nat ∧ Loop.current s = Some 0%nat.
Proof. vm_compute. split; reflexivity. Qed.

End OnAWorkingServer.

Section OnATickingClock.
#[local] Existing Instance Demo.ticking.

(** When the clock moves between two entries they do not carry the
    same [created]. *)
Example created_is_read_per_entry :
  ∃ entries,
    (generate_images Demo.app Demo.three_inline Demo.start).1
      = Return (DataResponse entries) ∧
    ¬ share_field "created" entries.
Proof.
  eexists. split; [vm_compute; reflexivity|].
  intros [v Hall].
  apply Forall_cons in Hall as [H0 Hall].
  apply Forall_cons in Hall as [H1 _].
  vm_compute in H0, H1. congruence.
Qed.

End OnATickingClock.


Section OnAFailingPipeline.
#[local] Existing Instance Demo.failing.

(** C8 for /txt2img on a pipeline that runs out of memory. *)
Lemma pipeline_failure_is_500_witness :
  pipeline_raises Demo.app (PostTxt2Img only_prompt) Demo.start
    "CUDA out of memory" ∧
  (serve Demo.app (PostTxt2Img only_prompt) Demo.start).1
    = Raise (HTTPException 500 "CUDA out of memory").
Proof.
  assert (Hraises : pipeline_raises Demo.app (PostTxt2Img only_prompt)
                      Demo.start "CUDA out of memory").
  { eexists. split; vm_compute; reflexivity. }
  split; [exact Hraises|].
  exact (proj1 (pipeline_failure_is_500 Demo.app (PostTxt2Img only_prompt)
                  Demo.start "CUDA out of memory" Hraises)).
Defined.

(** /v1/images/generations does not pass the message of the failure
    on. *)
Lemma generations_hides_the_failure :
  ¬ (pipeline_raises Demo.app (PostGenerations three_please) Demo.start
       "CUDA out of memory" →
     http_status
       (serve Demo.app (PostGenerations three_please) Demo.start).1 = 500 ∧
     http_error_body
       (serve Demo.app (PostGenerations three_please) Demo.start).1
       = Some [("detail", JStr "CUDA out of memory")]).
Proof.
  intros Hsaid. destruct Hsaid as [_ Hbody].
  - eexists. split; vm_compute; reflexivity.
  - vm_compute in Hbody. discriminate.
Qed.

End OnAFailingPipeline.

(** * Further properties: settings and start-up *)

Section SettingsFacts.

Lemma lower_char_idempotent c : Py.lower_char (Py.lower_char c) = Py.lower_char c.
Proof. destruct c as [[] [] [] [] [] [] [] []]; reflexivity. Qed.

Lemma lower_idempotent s : Py.lower (Py.lower s) = Py.lower s.
Proof.
  induction s as [|c s IH]; [reflexivity|].
  simpl. now rewrite lower_char_idempotent, IH.
Qed.

Lemma str_in_elem_of x l : Py.str_in x l = true ↔ x ∈ l.
Proof.
  unfold Py.str_in. rewrite existsb_exists. split.
  - intros (y & Hin & Heq). apply String.eqb_eq in Heq as ->.
    now apply list_elem_of_In.
  - intros Hin. exists x. split; [now apply list_elem_of_In|].
    apply String.eqb_refl.
Qed.

(** X1: a flag whose variable is not in the environment takes the
    default of its call site. *)
Theorem unset_flag_takes_default (environ : gmap string string)
    (var_name : string) (default : bool) :
  environ !! var_name = None →
  get_env_bool environ var_name default = default.
Proof.
  intros Hunset. unfold get_env_bool. rewrite Hunset.
  now destruct default.
Qed.

(** X2: a flag whose variable is set is on exactly when the value, in
    lower case, is one of "1", "true" and "yes"; the letter case of the
    value and the default of the call site make no difference. *)
Theorem set_flag_reads_three_words (environ : gmap string string)
    (var_name value : string) (default other : bool) :
  (get_env_bool (<[var_name := value]> environ) var_name default = true ↔
   Py.lower value ∈ ["1"; "true"; "yes"]) ∧
  get_env_bool (<[var_name := value]> environ) var_name default =
  get_env_bool (<[var_name := Py.lower value]> environ) var_name other.
Proof.
  unfold get_env_bool. rewrite !lookup_insert_eq. split.
  - apply str_in_elem_of.
  - now rewrite lower_idempotent.
Qed.

(** Start-up fails exactly when a capability is enabled and loading
    a pipeline raises; the error then carries the message of the
    exception.  With both capabilities off nothing is loaded. *)
Lemma startup_fails_when_loading_fails (s : Settings)
    (from_pretrained_error : option string) (message : string) :
  load_models s from_pretrained_error = inl message ↔
  ENABLE_TXT2IMG s || ENABLE_IMG2IMG s = true ∧
  ∃ e, from_pretrained_error = Some e ∧
       message = "Failed to initialize model: " +:+ e.
Proof.
  unfold load_models.
  destruct (ENABLE_TXT2IMG s || ENABLE_IMG2IMG s),
    from_pretrained_error as [e|]; split.
  - intros [= <-]. split; [reflexivity|]. now exists e.
  - intros (_ & e' & [= <-] & ->). reflexivity.
  - discriminate.
  - intros (_ & e' & He & _). discriminate.
  - discriminate.
  - intros [Hoff _]. discriminate.
  - discriminate.
  - intros [Hoff _]. discriminate.
Qed.

End SettingsFacts.

(** * Further properties: the helpers *)

Section HelperFacts.
Context `{Ext : Externals}.

Lemma read_chunks_bounds rounds chunk_size data :
  Forall (fun chunk => (0 < length chunk ≤ chunk_size)%nat)
    (read_chunks rounds chunk_size data).
Proof.
  revert data. induction rounds as [|rounds IH]; intros data; simpl;
    [constructor|].
  destruct (take chunk_size data) as [|b chunk] eqn:Htake; constructor.
  - apply (f_equal length) in Htake. rewrite length_take in Htake.
    simpl in *. lia.
  - apply IH.
Qed.

Lemma read_chunks_full rounds chunk_size data i chunk :
  (length data ≤ rounds)%nat →
  read_chunks rounds chunk_size data !! i = Some chunk →
  (S i < length (read_chunks rounds chunk_size data))%nat →
  length chunk = chunk_size.
Proof.
  revert data i. induction rounds as [|rounds IH]; intros data i Hlen;
    simpl; [discriminate|].
  destruct (take chunk_size data) as [|b rest] eqn:Htake; [discriminate|].
  destruct i as [|i]; simpl.
  - intros [= <-] Hmore. rewrite <- Htake, length_take.
    destruct rounds as [|rounds']; simpl in Hmore; [lia|].
    destruct (take chunk_size (drop chunk_size data)) as [|b' rest'] eqn:Hnext;
      [simpl in Hmore; lia|].
    apply (f_equal length) in Hnext.
    rewrite length_take, length_drop in Hnext. simpl in Hnext. lia.
  - intros Hchunk Hmore. eapply IH; [|exact Hchunk|lia].
    rewrite length_drop. apply (f_equal length) in Htake.
    rewrite length_take in Htake. simpl in Htake. lia.
Qed.

(** X3: the chunks [stream_image] yields, put together, are the PNG
    encoding of the picture; no chunk is empty, none is longer than
    1024 bytes, and every chunk but the last has exactly 1024. *)
Theorem stream_image_chunks (image : Image) :
  concat (stream_image image) = png_bytes image ∧
  Forall (fun chunk => (0 < length chunk ≤ 1024)%nat) (stream_image image) ∧
  ∀ i chunk,
    stream_image image !! i = Some chunk →
    (S i < length (stream_image image))%nat →
    length chunk = 1024%nat.
Proof.
  unfold stream_image. split; [|split].
  - apply read_chunks_concat; lia.
  - apply read_chunks_bounds.
  - intros i chunk. now apply read_chunks_full.
Qed.

Lemma output_path_relative file_id :
  Py.is_absolute file_id = false →
  output_path file_id = "output_images/" +:+ file_id +:+ ".png".
Proof.
  intros Hrel. unfold output_path, Py.path_join.
  now rewrite is_absolute_png, Hrel.
Qed.

(** X4: for an identifier that is a UUID string, as the one caller of
    [save_image_and_get_url] passes, the function either fails with the
    error of the write, or stores the PNG encoding at
    output_images/<id>.png, leaves every other file alone, and returns
    that path behind a "/". *)
Theorem saved_image_is_behind_its_url (image : Image) (u : N) (w : World) :
  let file_id := Uuid.str u in
  let path := "output_images/" +:+ file_id +:+ ".png" in
  match write_error (write_attempts w) with
  | Some message =>
      (save_image_and_get_url image file_id w).1 = Raise (Exception message)
  | None =>
      (save_image_and_get_url image file_id w).1 = Return ("/" +:+ path) ∧
      files (save_image_and_get_url image file_id w).2
        = <[path := png_bytes image]> (files w)
  end.
Proof.
  intros file_id path. subst file_id path.
  unfold save_image_and_get_url. rewrite bind_run.
  fold (output_path (Uuid.str u)).
  rewrite (output_path_relative _ (uuid_str_relative u)).
  unfold write_file. now destruct (write_error _).
Qed.

End HelperFacts.

(** * Further properties: one request *)

Section RequestFacts.
Context `{Ext : Externals}.
Variable app : App.

Lemma new_invocations_of_trace {A : Type} (m : Handler A) w events :
  trace (m w).2 = (trace w ++ events)%list →
  new_invocations m w = omap call_of events ∧
  invocations (m w).2 = (invocations w ++ omap call_of events)%list.
Proof.
  intros Htrace.
  assert (Hinv : invocations (m w).2
                 = (invocations w ++ omap call_of events)%list).
  { unfold invocations. rewrite Htrace. apply omap_app. }
  split; [now apply new_invocations_app|exact Hinv].
Qed.

Lemma unchanged_trace {A : Type} (m : Handler A) w o :
  m w = (o, w) → trace (m w).2 = (trace w ++ [])%list.
Proof. intros ->. simpl. now rewrite app_nil_r. Qed.

(** What a handler adds to the trace: nothing, the wait of /upload, or
    one pipeline call inside the lock of its endpoint. *)
Lemma serve_trace_shape r w :
  ∃ events,
    trace (serve app r w).2 = (trace w ++ events)%list ∧
    (events = [] ∨ events = [EvAwait] ∨
     ∃ l call, lock_of r = Some l ∧
       events = [EvAcquire l; EvCall call; EvDone; EvRelease l]).
Proof.
  destruct r as [body | file | body | body | ]; simpl serve.
  - destruct (txt2img_unavailable app) eqn:Hguard.
    + exists []. split; [|now left].
      eapply unchanged_trace, txt2img_off, Hguard.
    + eexists. split.
      * rewrite (txt2img_on _ _ _ Hguard). apply streamed_trace.
      * right. right. now eexists _, _.
  - exists [EvAwait]. split; [apply upload_image_appends|]. right. now left.
  - destruct (img2img_unavailable app) eqn:Hguard.
    + exists []. split; [|now left].
      eapply unchanged_trace, img2img_off, Hguard.
    + destruct (files w !! upload_path
                  (Img2ImgInput.file_id (Img2ImgInput.of_body body)))
        as [content|] eqn:Hfile.
      * pose proof (img2img_on _ _ _ _ Hguard Hfile) as Hrun.
        destruct (image_open_rgb content) as [m | pil_image].
        -- exists []. split; [|now left]. eapply unchanged_trace, Hrun.
        -- eexists. split; [rewrite Hrun; apply streamed_trace|].
           right. right. now eexists _, _.
      * exists []. split; [|now left].
        eapply unchanged_trace, img2img_missing; eassumption.
  - destruct (txt2img_unavailable app) eqn:Hguard.
    + exists []. split; [|now left].
      eapply unchanged_trace, generate_images_off, Hguard.
    + eexists. split; [apply (generate_images_appends _ _ Hguard)|].
      right. right. now eexists _, _.
  - exists []. split; [|now left]. now eapply unchanged_trace.
Qed.

(** X5: a request makes at most one pipeline invocation, also a request
    for several pictures, and the record of the invocations only grows:
    what was invoked before the request stays, in order, and the
    invocation of the request comes after it. *)
Theorem one_invocation_per_request (r : Request) (w : World) :
  (length (new_invocations (serve app r) w) ≤ 1)%nat ∧
  invocations (serve app r w).2
    = (invocations w ++ new_invocations (serve app r) w)%list.
Proof.
  destruct (serve_trace_shape r w) as (events & Htrace & Hshape).
  destruct (new_invocations_of_trace _ _ _ Htrace) as [-> ->].
  split; [|reflexivity].
  destruct Hshape as [-> | [-> | (l & call & _ & ->)]]; simpl; lia.
Qed.

(** X6: a handler that invokes a pipeline does so inside the lock of its
    endpoint ([gpu_lock] for /txt2img and /img2img, a lock of its own
    for /v1/images/generations) and has released the lock when it ends,
    whether the pipeline returned or raised; a handler that invokes
    nothing takes no lock. *)
Theorem calls_are_bracketed_by_a_lock (r : Request) (w : World) :
  match new_invocations (serve app r) w with
  | [] =>
      Loop.handler_events app r w = [] ∨
      Loop.handler_events app r w = [EvAwait]
  | call :: _ =>
      ∃ l, lock_of r = Some l ∧
        Loop.handler_events app r w
          = [EvAcquire l; EvCall call; EvDone; EvRelease l]
  end.
Proof.
  destruct (serve_trace_shape r w) as (events & Htrace & Hshape).
  destruct (new_invocations_of_trace _ _ _ Htrace) as [-> _].
  unfold Loop.handler_events. rewrite Htrace, drop_app_length.
  destruct Hshape as [-> | [-> | (l & call & Hlock & ->)]]; simpl; eauto.
Qed.

Lemma try_except_constant {A : Type} (body : Handler A) (e : Exn) w :
  (try_except body (fun _ => raise e) w).1 = Raise e ∨
  ∃ a, (try_except body (fun _ => raise e) w).1 = Return a.
Proof.
  unfold try_except. destruct (body w) as [[a|e'] w']; simpl; eauto.
Qed.

Lemma streamed_status call w :
  http_status (streamed call w).1 = 200 ∨
  http_status (streamed call w).1 = 500.
Proof.
  unfold streamed.
  destruct (run_pipeline _ _) as [m | [|image rest]]; simpl; auto.
Qed.

Lemma txt2img_status input w :
  http_status (txt2img app input w).1 =
    (if txt2img_unavailable app then 400
     else http_status (streamed (txt2img_call input) w).1).
Proof.
  destruct (txt2img_unavailable app) eqn:Hguard.
  - now rewrite (txt2img_off _ _ _ Hguard).
  - now rewrite (txt2img_on _ _ _ Hguard).
Qed.

Lemma generate_images_status request w :
  http_status (generate_images app request w).1 = 503
    ∧ txt2img_unavailable app = true ∨
  (http_status (generate_images app request w).1 = 200 ∨
   http_status (generate_images app request w).1 = 500)
    ∧ txt2img_unavailable app = false.
Proof.
  destruct (txt2img_unavailable app) eqn:Hguard.
  - left. now rewrite (generate_images_off _ _ _ Hguard).
  - right. split; [|reflexivity]. rewrite (generate_images_on _ _ _ Hguard).
    destruct (run_pipeline _ _) as [m | images]; [now right|].
    match goal with |- context [try_except ?b ?h ?v] =>
      destruct (try_except_constant b
                  (HTTPException 500 "Internal server error.") v)
        as [Hr | [a Hr]]
    end; rewrite Hr; simpl; auto.
Qed.

Lemma img2img_status input w :
  http_status (img2img app input w).1 = 400
    ∧ img2img_unavailable app = true ∨
  (http_status (img2img app input w).1 = 200 ∨
   http_status (img2img app input w).1 = 404 ∨
   http_status (img2img app input w).1 = 500)
    ∧ img2img_unavailable app = false.
Proof.
  destruct (img2img_unavailable app) eqn:Hguard.
  - left. now rewrite (img2img_off _ _ _ Hguard).
  - right. split; [|reflexivity].
    destruct (files w !! upload_path (Img2ImgInput.file_id input))
      as [content|] eqn:Hfile.
    + rewrite (img2img_on _ _ _ _ Hguard Hfile).
      destruct (image_open_rgb content) as [m | pil_image]; [simpl; auto|].
      destruct (streamed_status (img2img_call input pil_image) w) as [-> | ->];
        auto.
    + rewrite (img2img_missing _ _ _ Hguard Hfile). simpl. auto.
Qed.

(** X7: the status codes of the endpoints.  /txt2img answers 200, 400
    or 500; /upload 200 or 500; /img2img 200, 400, 404 or 500;
    /v1/images/generations 200, 500 or 503; /health always 200. *)
Theorem status_codes_by_endpoint (r : Request) (w : World) :
  http_status (serve app r w).1 ∈
    match r with
    | PostTxt2Img _ => [200; 400; 500]
    | PostUpload _ => [200; 500]
    | PostImg2Img _ => [200; 400; 404; 500]
    | PostGenerations _ => [200; 500; 503]
    | GetHealth => [200]
    end.
Proof.
  destruct r as [body | file | body | body | ]; simpl serve.
  - rewrite txt2img_status.
    destruct (txt2img_unavailable app); [repeat constructor|].
    destruct (streamed_status
                (txt2img_call (Txt2ImgInput.of_body body)) w) as [-> | ->];
      repeat constructor.
  - rewrite upload_image_outcome.
    destruct (write_error _); simpl; repeat constructor.
  - destruct (img2img_status (Img2ImgInput.of_body body) w)
      as [[-> _] | [[-> | [-> | ->]] _]]; repeat constructor.
  - destruct (generate_images_status
                (ImageGenerationRequest.of_body body) w)
      as [[-> _] | [[-> | ->] _]]; repeat constructor.
  - simpl. repeat constructor.
Qed.

End RequestFacts.

Section StartedServer.
Context `{Ext : Externals}.

(** X8: on a server that started, an endpoint answers with its
    disabled-capability status exactly when the flag of its capability
    is off: 400 on /txt2img and 503 on /v1/images/generations for
    [ENABLE_TXT2IMG], 400 on /img2img for [ENABLE_IMG2IMG]. *)
Theorem started_server_refuses_by_flag (s : Settings)
    (from_pretrained_error : option string) (p : Pipelines) (w : World) :
  load_models s from_pretrained_error = inr p →
  let started := {| settings := s; pipelines := p |} in
  (∀ input, http_status (txt2img started input w).1 = 400
            ↔ ENABLE_TXT2IMG s = false) ∧
  (∀ request, http_status (generate_images started request w).1 = 503
              ↔ ENABLE_TXT2IMG s = false) ∧
  (∀ input, http_status (img2img started input w).1 = 400
            ↔ ENABLE_IMG2IMG s = false).
Proof.
  intros Hload started.
  destruct (started_server_guards _ _ _ Hload) as [Ht2i Hi2i].
  fold started in Ht2i, Hi2i. split; [|split].
  - intros input. rewrite txt2img_status, Ht2i.
    destruct (ENABLE_TXT2IMG s); simpl; [|tauto].
    destruct (streamed_status (txt2img_call input) w) as [-> | ->];
      split; discriminate.
  - intros request.
    destruct (generate_images_status started request w)
      as [[Hcode Hg] | [Hcode Hg]]; rewrite Ht2i in Hg;
      destruct (ENABLE_TXT2IMG s); try discriminate.
    + tauto.
    + destruct Hcode as [-> | ->]; split; discriminate.
  - intros input.
    destruct (img2img_status started input w)
      as [[Hcode Hg] | [Hcode Hg]]; rewrite Hi2i in Hg;
      destruct (ENABLE_IMG2IMG s); try discriminate.
    + tauto.
    + destruct Hcode as [-> | [-> | ->]]; split; discriminate.
Qed.

End StartedServer.

(** * Further properties: files and answers *)

Section FileFacts.
Context `{Ext : Externals}.
Variable app : App.

Lemma inline_keeps_files request id images :
  String.eqb (ImageGenerationRequest.response_format request) "url" = false →
  Preserves files
    (try_except (build_entries request id images)
       (fun _ => raise (HTTPException 500 "Internal server error."))).
Proof.
  intros Hinline.
  apply preserves_try_except; [|intros e; apply preserves_raise].
  unfold build_entries. rewrite Hinline.
  apply preserves_bind; [|intros; apply preserves_ret].
  apply preserves_for_each. intros image.
  apply preserves_bind; [intros v; reflexivity|]. intros created.
  apply preserves_bind; [intros v; reflexivity|].
  intros; apply preserves_ret.
Qed.

(** X9: only /upload and a "url" answer of /v1/images/generations
    write files: every other request leaves every file as it was. *)
Theorem other_requests_write_no_file (r : Request) (w : World) :
  may_write_files r = false →
  files (serve app r w).2 = files w.
Proof.
  destruct r as [body | file | body | body | ]; intros Hquiet;
    unfold may_write_files in Hquiet; simpl serve.
  - destruct (txt2img_unavailable app) eqn:Hguard.
    + now rewrite (txt2img_off _ _ _ Hguard).
    + now rewrite (txt2img_on _ _ _ Hguard), streamed_files.
  - discriminate.
  - destruct (img2img_unavailable app) eqn:Hguard.
    + now rewrite (img2img_off _ _ _ Hguard).
    + destruct (files w !! upload_path
                  (Img2ImgInput.file_id (Img2ImgInput.of_body body)))
        as [content|] eqn:Hfile.
      * rewrite (img2img_on _ _ _ _ Hguard Hfile).
        destruct (image_open_rgb content); [reflexivity|].
        now rewrite streamed_files.
      * now rewrite (img2img_missing _ _ _ Hguard Hfile).
  - destruct (txt2img_unavailable app) eqn:Hguard.
    + now rewrite (generate_images_off _ _ _ Hguard).
    + rewrite (generate_images_on _ _ _ Hguard).
      destruct (run_pipeline _ _) as [m | images]; [reflexivity|].
      now rewrite (inline_keeps_files _ _ _ Hquiet).
  - reflexivity.
Qed.

Lemma upload_path_of_uuid u :
  upload_path (Uuid.str u) = "uploaded_images/" +:+ Uuid.str u +:+ ".png".
Proof. rewrite upload_path_unfold. now rewrite uuid_str_relative. Qed.

(** X10: /upload draws one identifier and invokes no pipeline.  When the
    disk takes the write, the answer is that identifier and the one
    file uploaded_images/<identifier>.png now holds the uploaded bytes,
    all other files being as before; when the write fails, the answer is
    500 with the message of the error. *)
Theorem upload_writes_one_file (file : list byte) (w : World) :
  let id := Uuid.str (Uuid.uuid4 (urandom16 (uuid_draws w))) in
  let after := (upload_image file w).2 in
  uuid_draws after = S (uuid_draws w) ∧
  new_invocations (upload_image file) w = [] ∧
  match write_error (write_attempts w) with
  | None =>
      (upload_image file w).1 = Return (JsonResponse [("file_id", JStr id)]) ∧
      files after
        = <["uploaded_images/" +:+ id +:+ ".png" := file]> (files w)
  | Some message =>
      (upload_image file w).1 = Raise (HTTPException 500 message)
  end.
Proof.
  intros id after. subst after. split; [apply upload_image_draws|].
  split.
  - now rewrite (invocations_of_appends _ _ w (upload_image_appends file)).
  - rewrite upload_image_outcome, upload_image_files.
    unfold next_uuid. fold id.
    destruct (write_error _); [reflexivity|].
    split; [reflexivity|]. subst id. now rewrite upload_path_of_uuid.
Qed.

(** X11: when the file stored for the [file_id] is not a picture, the
    exception of [Image.open] leaves /img2img unhandled: the answer is
    500 without a [detail] body, no pipeline is invoked and nothing
    else happens. *)
Theorem unreadable_upload_is_unhandled (input : Img2ImgInput.t) (w : World)
    (content : list byte) (message : string) :
  img2img_unavailable app = false →
  files w !! upload_path (Img2ImgInput.file_id input) = Some content →
  image_open_rgb content = inl message →
  img2img app input w = (Raise (Exception message), w) ∧
  http_status (img2img app input w).1 = 500 ∧
  http_error_body (img2img app input w).1 = None ∧
  new_invocations (img2img app input) w = [].
Proof.
  intros Hon Hfile Hopen.
  assert (Hrun : img2img app input w = (Raise (Exception message), w)).
  { rewrite (img2img_on _ _ _ _ Hon Hfile). now rewrite Hopen. }
  split; [exact Hrun|]. rewrite Hrun. repeat split.
  eapply nothing_invoked, Hrun.
Qed.

(** X12: an available /txt2img streams the first picture the pipeline
    returns, whatever comes after it, as image/png under a file name
    made of a fresh identifier; when the pipeline returns no picture at
    all, the answer is 500 with the message of the [IndexError]. *)
Theorem txt2img_streams_the_first_picture (input : Txt2ImgInput.t)
    (w : World) (images : list Image) :
  txt2img_unavailable app = false →
  run_pipeline (length (invocations w)) (txt2img_call input) = inr images →
  match images with
  | [] =>
      (txt2img app input w).1
        = Raise (HTTPException 500 "list index out of range")
  | image :: _ =>
      ∃ content,
        (txt2img app input w).1
          = Return (StreamingResponse content "image/png"
                      ("attachment; filename="
                       +:+ Uuid.str (Uuid.uuid4 (urandom16 (uuid_draws w)))
                       +:+ ".png")) ∧
        concat content = png_bytes image
  end.
Proof.
  intros Hon Hpipe. rewrite (txt2img_on _ _ _ Hon). unfold streamed.
  rewrite Hpipe. destruct images as [|image rest]; [reflexivity|].
  exists (stream_image image). split; [reflexivity|].
  unfold stream_image. apply read_chunks_concat; lia.
Qed.

(** X13: a [file_id] that begins with "/" makes /img2img open the file
    <file_id>.png itself, outside the directory of the uploads: when
    that file is a picture, it is what the pipeline is invoked on. *)
Theorem absolute_file_id_leaves_the_uploads (input : Img2ImgInput.t)
    (w : World) (content : list byte) (pil_image : Image) :
  img2img_unavailable app = false →
  Py.is_absolute (Img2ImgInput.file_id input) = true →
  files w !! (Img2ImgInput.file_id input +:+ ".png") = Some content →
  image_open_rgb content = inr pil_image →
  new_invocations (img2img app input) w = [img2img_call input pil_image].
Proof.
  intros Hon Habs Hfile Hopen.
  rewrite img2img_invocations, Hon. unfold opened_image.
  rewrite upload_path_unfold, Habs, Hfile, Hopen. reflexivity.
Qed.

End FileFacts.

(** * Further properties: the answers of /v1/images/generations *)

Section GenerationFacts.
Context `{Ext : Externals}.
Variable app : App.

Lemma url_item_run id image w :
  (created ← int_time;
   url ← save_image_and_get_url image id;
   mret [("id", JStr id); ("object", JStr "image");
         ("created", JInt created); ("url", JStr url)]) w =
  match write_error (write_attempts w) with
  | Some message =>
      (Raise (Exception message),
       {| files := files w; uuid_draws := uuid_draws w;
          clock_reads := S (clock_reads w);
          write_attempts := S (write_attempts w); trace := trace w |})
  | None =>
      (Return (url_entry id (time_time (clock_reads w))),
       {| files := <[output_path id := png_bytes image]> (files w);
          uuid_draws := uuid_draws w; clock_reads := S (clock_reads w);
          write_attempts := S (write_attempts w); trace := trace w |})
  end.
Proof.
  rewrite bind_run. unfold int_time at 1. rewrite bind_run.
  unfold save_image_and_get_url. rewrite bind_run. unfold write_file.
  cbn [write_attempts]. now destruct (write_error _).
Qed.

(** After the loop of the "url" format, the one file all pictures were
    saved to holds the last of them. *)
Lemma url_loop_files id images :
  ∀ w entries w',
    for_each
      (fun image =>
         created ← int_time;
         url ← save_image_and_get_url image id;
         mret [("id", JStr id); ("object", JStr "image");
               ("created", JInt created); ("url", JStr url)])
      images w = (Return entries, w') →
    files w' =
    match last images with
    | Some image => <[output_path id := png_bytes image]> (files w)
    | None => files w
    end.
Proof.
  induction images as [|image rest IH]; intros w entries w' Hrun.
  - outcome_and_world Hrun. now subst w'.
  - cbn [for_each] in Hrun. rewrite bind_run, url_item_run in Hrun.
    destruct (write_error _); [outcome_and_world Hrun; discriminate|].
    rewrite bind_run in Hrun.
    match type of Hrun with context [for_each ?f rest ?v] =>
      destruct (for_each f rest v) as [[ys|e] w2] eqn:Hrest
    end; [|outcome_and_world Hrun; discriminate].
    unfold mret, handler_ret in Hrun. outcome_and_world Hrun. subst w'.
    rewrite (IH _ _ _ Hrest). cbn [files]. rewrite last_cons.
    destruct (last rest); [apply insert_insert_eq|reflexivity].
Qed.

(** X14: a successful "url" answer names one and the same address in
    every entry, /output_images/<id>.png, and of all the pictures the
    pipeline returned the file behind it holds the last one only. *)
Theorem url_answer_keeps_the_last_picture
    (request : ImageGenerationRequest.t) (w : World)
    (images : list Image) (entries : list Dict) :
  ImageGenerationRequest.response_format request = "url" →
  run_pipeline (length (invocations w)) (generations_call request)
    = inr images →
  (generate_images app request w).1 = Return (DataResponse entries) →
  let id := Uuid.str (Uuid.uuid4 (urandom16 (uuid_draws w))) in
  length entries = length images ∧
  Forall (fun entry =>
    dict_get "url" entry = Some (JStr ("/output_images/" +:+ id +:+ ".png")))
    entries ∧
  files (generate_images app request w).2 =
    match last images with
    | Some image => <["output_images/" +:+ id +:+ ".png" := png_bytes image]>
                      (files w)
    | None => files w
    end.
Proof.
  intros Hurl Hpipe Hrun id.
  destruct (generate_images_returns _ _ _ _ Hrun)
    as (images' & Hpipe' & Hlen & Hnth).
  rewrite Hpipe in Hpipe'. injection Hpipe' as <-.
  split; [exact Hlen|]. split.
  - apply Forall_lookup. intros i entry Hentry.
    destruct (Hnth _ _ Hentry) as (x & _ & ->). now rewrite Hurl.
  - destruct (txt2img_unavailable app) eqn:Hguard.
    { rewrite (generate_images_off _ _ _ Hguard) in Hrun. discriminate. }
    rewrite (generate_images_on _ _ _ Hguard), Hpipe in Hrun |- *.
    unfold try_except, build_entries in Hrun |- *.
    rewrite bind_run, Hurl in Hrun |- *.
    change ("url" =? "url")%string with true in Hrun |- *. cbv iota in *.
    match type of Hrun with context [for_each ?f images ?v] =>
      destruct (for_each f images v) as [[ys|e] w2] eqn:Hloop
    end; [|discriminate].
    apply url_loop_files in Hloop. cbn [snd mret handler_ret].
    rewrite Hloop. cbn [files uuid4_str snd after_call log].
    rewrite <- (output_path_relative id) by apply uuid_str_relative.
    reflexivity.
Qed.

Lemma inline_item_run id image w :
  (created ← int_time;
   b64_json ← encode_image_to_base64 image;
   mret [("id", JStr id); ("object", JStr "image");
         ("created", JInt created); ("b64_json", JStr b64_json)]) w =
  (Return (inline_entry id (time_time (clock_reads w)) image),
   {| files := files w; uuid_draws := uuid_draws w;
      clock_reads := S (clock_reads w);
      write_attempts := write_attempts w; trace := trace w |}).
Proof. reflexivity. Qed.

Lemma inline_loop_outcome id images :
  ∀ w,
    (for_each
       (fun image =>
          created ← int_time;
          b64_json ← encode_image_to_base64 image;
          mret [("id", JStr id); ("object", JStr "image");
                ("created", JInt created); ("b64_json", JStr b64_json)])
       images w).1 =
    Return (imap (fun i image =>
                    inline_entry id (time_time (clock_reads w + i)%nat) image)
              images).
Proof.
  induction images as [|image rest IH]; intros w; [reflexivity|].
  cbn [for_each]. rewrite bind_run, inline_item_run, bind_run.
  match goal with |- context [for_each ?f rest ?v] =>
    specialize (IH v); destruct (for_each f rest v) as [o w2]
  end.
  cbn [fst] in IH. subst o. cbn [fst clock_reads mret handler_ret imap].
  rewrite Nat.add_0_r. f_equal. f_equal.
  apply imap_ext. intros i x _. simpl. f_equal. f_equal. lia.
Qed.

(** X15: once the pipeline has returned, an answer in any format other
    than "url" cannot fail: it has one entry per returned picture, in
    the order of the pictures, each with the base64 text of the PNG
    encoding of its picture, and no file is written.  The format is
    compared as it is written: "URL" is such a format. *)
Theorem inline_answer_follows_the_pictures
    (request : ImageGenerationRequest.t) (w : World) (images : list Image) :
  txt2img_unavailable app = false →
  ImageGenerationRequest.response_format request ≠ "url" →
  run_pipeline (length (invocations w)) (generations_call request)
    = inr images →
  let id := Uuid.str (Uuid.uuid4 (urandom16 (uuid_draws w))) in
  (generate_images app request w).1 =
    Return (DataResponse
      (imap (fun i image =>
               [("id", JStr id); ("object", JStr "image");
                ("created", JInt (time_time (clock_reads w + i)%nat));
                ("b64_json", JStr (b64encode (png_bytes image)))])
         images)) ∧
  files (generate_images app request w).2 = files w.
Proof.
  intros Hon Hformat Hpipe id.
  apply String.eqb_neq in Hformat.
  rewrite (generate_images_on _ _ _ Hon), Hpipe. split.
  - unfold try_except, build_entries. rewrite bind_run, Hformat.
    match goal with |- context [for_each ?f images ?v] =>
      pose proof (inline_loop_outcome (next_uuid w) images v) as Hloop;
      destruct (for_each f images v) as [o w2]
    end.
    cbn [fst] in Hloop. subst o. reflexivity.
  - now rewrite (inline_keeps_files _ _ _ Hformat).
Qed.

(** X16: /v1/images/generations does not undo what it wrote.  When the
    first picture of a "url" answer is written and the second write
    fails, the answer is 500 "Internal server error." and names no
    address, yet there is a file at output_images/<id>.png. *)
Theorem failed_url_answer_leaves_a_file
    (request : ImageGenerationRequest.t) (w : World)
    (first second : Image) (others : list Image) (message : string) :
  txt2img_unavailable app = false →
  ImageGenerationRequest.response_format request = "url" →
  run_pipeline (length (invocations w)) (generations_call request)
    = inr (first :: second :: others) →
  write_error (write_attempts w) = None →
  write_error (S (write_attempts w)) = Some message →
  let id := Uuid.str (Uuid.uuid4 (urandom16 (uuid_draws w))) in
  (generate_images app request w).1
    = Raise (HTTPException 500 "Internal server error.") ∧
  is_Some (files (generate_images app request w).2
             !! ("output_images/" +:+ id +:+ ".png")).
Proof.
  intros Hon Hurl Hpipe Hfirst Hsecond id.
  rewrite (generate_images_on _ _ _ Hon), Hpipe.
  unfold try_except, build_entries. rewrite bind_run, Hurl.
  change ("url" =? "url")%string with true. cbv iota.
  cbn [for_each]. rewrite bind_run, url_item_run.
  cbn [write_attempts uuid4_str snd after_call log]. rewrite Hfirst.
  rewrite bind_run, bind_run, url_item_run. cbn [write_attempts].
  rewrite Hsecond. cbn [fst snd raise files].
  rewrite <- (output_path_relative id) by apply uuid_str_relative.
  split; [reflexivity|]. rewrite lookup_insert_eq. eauto.
Qed.

Lemma build_entries_returns request id images w a :
  (build_entries request id images w).1 = Return a →
  ∃ entries, a = DataResponse entries.
Proof.
  unfold build_entries. rewrite bind_run.
  destruct (String.eqb _ _);
    match goal with |- context [for_each ?f images w] =>
      destruct (for_each f images w) as [[ys|e] w2]
    end; try discriminate; intros [= <-]; now exists ys.
Qed.

(** X17: /v1/images/generations never lets an exception through: it
    answers with its entries, with 503 for the disabled capability, or,
    whatever failed after the guard (the pipeline or the disk), with
    500 and the fixed detail "Internal server error.". *)
Theorem generations_answers (request : ImageGenerationRequest.t) (w : World) :
  (∃ entries,
     (generate_images app request w).1 = Return (DataResponse entries)) ∨
  (generate_images app request w).1
    = Raise (HTTPException 503 "Text-to-Image generation is unavailable.") ∨
  (generate_images app request w).1
    = Raise (HTTPException 500 "Internal server error.").
Proof.
  destruct (txt2img_unavailable app) eqn:Hguard.
  - right. left. now rewrite (generate_images_off _ _ _ Hguard).
  - rewrite (generate_images_on _ _ _ Hguard).
    destruct (run_pipeline _ _) as [m | images]; [now right; right|].
    unfold try_except.
    match goal with |- context [build_entries ?r ?i ?l ?v] =>
      pose proof (build_entries_returns r i l v) as Hret;
      destruct (build_entries r i l v) as [[a|e] w2]
    end.
    + left. destruct (Hret a eq_refl) as [entries ->]. now exists entries.
    + right. now right.
Qed.

End GenerationFacts.

(** ** The entries of an answer with three pictures *)

Section ThreeEntries.
Context `{Ext : Externals}.

(** The file of a successful "url" answer holds the last picture. *)
Lemma url_answer_file app request w images entries image :
  ImageGenerationRequest.response_format request = "url" →
  run_pipeline (length (invocations w)) (generations_call request)
    = inr images →
  (generate_images app request w).1 = Return (DataResponse entries) →
  last images = Some image →
  files (generate_images app request w).2
    !! ("output_images/" +:+ next_uuid w +:+ ".png")
  = Some (png_bytes image).
Proof.
  intros Hurl Hpipe Hrun Hlast.
  destruct (txt2img_unavailable app) eqn:Hguard.
  { rewrite (generate_images_off _ _ _ Hguard) in Hrun. discriminate. }
  rewrite (generate_images_on _ _ _ Hguard), Hpipe in Hrun |- *.
  unfold try_except, build_entries in Hrun |- *.
  rewrite bind_run, Hurl in Hrun |- *.
  change ("url" =? "url")%string with true in Hrun |- *. cbv iota in *.
  match type of Hrun with context [for_each ?f images ?v] =>
    destruct (for_each f images v) as [[ys|e] w2] eqn:Hloop
  end; [|discriminate].
  apply url_loop_files in Hloop. cbn [snd mret handler_ret].
  rewrite Hloop, Hlast.
  rewrite <- (output_path_relative (next_uuid w)) by apply uuid_str_relative.
  apply lookup_insert_eq.
Qed.


End ThreeEntries.

(** ** No handler removes a file *)

Section NothingIsRemoved.
Context `{Ext : Externals}.
Variable app : App.

Lemma keeps_preserves {A : Type} (m : Handler A) :
  Preserves files m → Keeps m.
Proof. intros Hm w path. now rewrite Hm. Qed.

Lemma keeps_bind {A B : Type} (m : Handler A) (f : A → Handler B) :
  Keeps m → (∀ a, Keeps (f a)) → Keeps (m ≫= f).
Proof.
  intros Hm Hf w path Hin. unfold mbind, handler_bind.
  specialize (Hm w path Hin). destruct (m w) as [[a|e] w']; simpl in *.
  - now apply Hf.
  - exact Hm.
Qed.

Lemma keeps_try_except {A : Type} (body : Handler A) handler :
  Keeps body → (∀ e, Keeps (handler e)) → Keeps (try_except body handler).
Proof.
  intros Hm Hh w path Hin. unfold try_except.
  specialize (Hm w path Hin). destruct (body w) as [[a|e] w']; simpl in *.
  - exact Hm.
  - now apply Hh.
Qed.

Lemma keeps_for_each {A B : Type} (f : A → Handler B) xs :
  (∀ x, Keeps (f x)) → Keeps (for_each f xs).
Proof.
  intros Hf. induction xs as [|x rest IH]; simpl.
  - apply keeps_preserves, preserves_ret.
  - apply keeps_bind; [apply Hf|]. intros y.
    apply keeps_bind; [exact IH|]. intros ys.
    apply keeps_preserves, preserves_ret.
Qed.

(** Writing replaces or adds one file. *)
Lemma keeps_write_file path content : Keeps (write_file path content).
Proof.
  intros w p Hin. unfold write_file.
  destruct (write_error _); cbn [snd files]; [exact Hin|].
  apply lookup_insert_is_Some'. now right.
Qed.

Lemma keeps_build_entries request id images :
  Keeps (build_entries request id images).
Proof.
  unfold build_entries.
  apply keeps_bind; [|intros; apply keeps_preserves, preserves_ret].
  destruct (String.eqb _ _); apply keeps_for_each; intros image;
    (apply keeps_bind; [apply keeps_preserves; intros v; reflexivity|]);
    intros created;
    (apply keeps_bind; [|intros; apply keeps_preserves, preserves_ret]).
  - unfold save_image_and_get_url.
    apply keeps_bind; [apply keeps_write_file|].
    intros; apply keeps_preserves, preserves_ret.
  - apply keeps_preserves. intros v. reflexivity.
Qed.

Lemma keeps_serve r : Keeps (serve app r).
Proof.
  intros w path Hin.
  destruct r as [body | file | body | body | ]; simpl serve.
  - destruct (txt2img_unavailable app) eqn:Hguard.
    + now rewrite (txt2img_off _ _ _ Hguard).
    + now rewrite (txt2img_on _ _ _ Hguard), streamed_files.
  - rewrite upload_image_files.
    destruct (write_error _); [exact Hin|].
    apply lookup_insert_is_Some'. now right.
  - destruct (img2img_unavailable app) eqn:Hguard.
    + now rewrite (img2img_off _ _ _ Hguard).
    + destruct (files w !! upload_path
                  (Img2ImgInput.file_id (Img2ImgInput.of_body body)))
        as [content|] eqn:Hfile.
      * rewrite (img2img_on _ _ _ _ Hguard Hfile).
        destruct (image_open_rgb content); [exact Hin|].
        now rewrite streamed_files.
      * now rewrite (img2img_missing _ _ _ Hguard Hfile).
  - destruct (txt2img_unavailable app) eqn:Hguard.
    + now rewrite (generate_images_off _ _ _ Hguard).
    + rewrite (generate_images_on _ _ _ Hguard).
      destruct (run_pipeline _ _) as [m | images]; [exact Hin|].
      apply keeps_try_except;
        [apply keeps_build_entries
        |intros e; apply keeps_preserves, preserves_raise
        |exact Hin].
  - exact Hin.
Qed.

(** X18: the server never removes a file.  Whatever requests are handled
    one after the other, and whether they succeed or fail, a path that
    named a file before still names one afterwards: uploads and the
    pictures of "url" answers stay until something outside the server
    removes them. *)
Theorem no_request_removes_a_file (rs : list Request) (w : World)
    (path : string) :
  is_Some (files w !! path) →
  is_Some (files (serve_all app rs w) !! path).
Proof.
  revert w. induction rs as [|r rest IH]; intros w Hin; [exact Hin|].
  cbn [serve_all]. apply IH. now apply keeps_serve.
Qed.

End NothingIsRemoved.

(** * Further properties: the locks in the event loop *)

Section QuietLoop.
Context `{Ext : Externals}.
Variable app : App.
Import Loop.

Lemma script_cases events :
  script events = true →
  events = [] ∨ events = [EvAwait] ∨
  (∃ l call, events = [EvAcquire l; EvCall call; EvDone; EvRelease l]) ∨
  (∃ l call, events = [EvCall call; EvDone; EvRelease l]) ∨
  (∃ l, events = [EvDone; EvRelease l]) ∨
  (∃ l, events = [EvRelease l]).
Proof.
  unfold script.
  repeat match goal with
         | |- context [match ?x with _ => _ end] => destruct x
         end;
    intros Hs; try discriminate;
    try (apply bool_decide_eq_true in Hs as ->); eauto 10.
Qed.

Lemma handler_events_script r w : script (handler_events app r w) = true.
Proof.
  destruct (serve_trace_shape app r w) as (events & Htrace & Hshape).
  rewrite (events_of_trace app r w events Htrace).
  destruct Hshape as [-> | [-> | (l & call & _ & ->)]]; try reflexivity.
  simpl. now apply bool_decide_eq_true.
Qed.

Lemma quiet_set s i t t' g cur :
  quiet s → tasks s !! i = Some t →
  task_quiet t' → waiters g = [] →
  (locked g = true → cur = Some i ∧ holds GpuLock (code t') = true) →
  quiet {| tasks := <[i := t']> (tasks s); current := cur; gpu_lock := g |}.
Proof.
  intros (_ & _ & Htasks) Hi Ht' Hwait Hheld.
  split; [exact Hwait|]. split.
  - intros Hlocked. destruct (Hheld Hlocked) as [-> Hcode].
    exists i, t'. split; [reflexivity|]. split; [|exact Hcode].
    apply list_lookup_insert_eq. now apply lookup_lt_Some in Hi.
  - intros j tj Hj. simpl in Hj.
    apply list_lookup_insert_Some in Hj as [(_ & <- & _) | [_ Hj]];
      [exact Ht'|exact (Htasks _ _ Hj)].
Qed.

(** While task [i] runs, [gpu_lock] is taken by [i] or by nobody. *)
Lemma gpu_lock_holder s i t :
  quiet s → current s = Some i → tasks s !! i = Some t →
  locked (gpu_lock s) = true → holds GpuLock (code t) = true.
Proof.
  intros (_ & Hheld & _) Hcur Hi Hlocked.
  destruct (Hheld Hlocked) as (j & tj & Hj & Htj & Hcode).
  rewrite Hcur in Hj. injection Hj as <-.
  rewrite Hi in Htj. now injection Htj as <-.
Qed.

Lemma free_lock_is_taken_at_once i l :
  locked l = false → waiters l = [] →
  acquire i l = ({| locked := true; waiters := [] |}, true).
Proof.
  intros Hfree Hnone. unfold acquire. rewrite Hfree, Hnone. reflexivity.
Qed.

Lemma release_wakes_nobody l :
  waiters l = [] →
  (release l).2 = None ∧ locked (release l).1 = false ∧
  waiters (release l).1 = [].
Proof.
  intros Hnone. unfold release.
  destruct (locked l) eqn:Hl; simpl; rewrite ?Hnone; auto.
Qed.

Lemma exec_quiet s i t :
  quiet s → current s = Some i → tasks s !! i = Some t →
  quiet (exec i t s).
Proof.
  intros Hq Hcur Hi.
  pose proof (gpu_lock_holder s i t Hq Hcur Hi) as Hgpu.
  pose proof Hq as (Hwait & Hheld & Htasks).
  destruct (Htasks _ _ Hi) as (Hscript & Hstatus & Hown_wait & Hown).
  unfold exec.
  destruct (script_cases _ Hscript)
    as [Hc | [Hc | [(l & call & Hc) | [(l & call & Hc) | [(l & Hc) | (l & Hc)]]]]];
    rewrite Hc in *; simpl in Hgpu, Hown.
  - apply (quiet_set s i t); auto; quiet_side.
  - apply (quiet_set s i t); auto; quiet_side.
  - assert (Hgfree : locked (gpu_lock s) = false).
    { destruct (locked (gpu_lock s)); [|reflexivity].
      specialize (Hgpu eq_refl). discriminate. }
    assert (Hofree : locked (own_lock t) = false).
    { destruct (locked (own_lock t)); [|reflexivity].
      specialize (Hown eq_refl). discriminate. }
    assert (Hacq : acquire i (get_lock l t s)
                   = ({| locked := true; waiters := [] |}, true)).
    { destruct l; simpl; now apply free_lock_is_taken_at_once. }
    assert (Hnow :
      match status t with
      | LockWait _ =>
          put i {| code := [EvCall call; EvDone; EvRelease l];
                   status := Ready; in_pipeline := in_pipeline t;
                   own_lock := own_lock t |}
              l (resume_acquire i (get_lock l t s)) (Some i) s
      | _ =>
          let (lk, taken) := acquire i (get_lock l t s) in
          if taken
          then put i {| code := [EvCall call; EvDone; EvRelease l];
                        status := Ready; in_pipeline := in_pipeline t;
                        own_lock := own_lock t |} l lk (Some i) s
          else put i {| code := [EvAcquire l; EvCall call; EvDone; EvRelease l];
                        status := LockWait false;
                        in_pipeline := in_pipeline t;
                        own_lock := own_lock t |} l lk None s
      end =
      put i {| code := [EvCall call; EvDone; EvRelease l];
               status := Ready; in_pipeline := in_pipeline t;
               own_lock := own_lock t |}
          l {| locked := true; waiters := [] |} (Some i) s).
    { destruct (status t) as [ | woken | | ]; rewrite ?Hacq; try reflexivity.
      now destruct (Hstatus woken). }
    rewrite Hnow. clear Hnow Hacq.
    destruct l; unfold put; apply (quiet_set s i t); auto; quiet_side.
  - apply (quiet_set s i t); auto; quiet_side.
  - apply (quiet_set s i t); auto; quiet_side.
  - assert (Hlock_wait : waiters (get_lock l t s) = [])
      by (destruct l; assumption).
    destruct (release_wakes_nobody _ Hlock_wait) as (Hnobody & Hfree & Hw').
    destruct (release (get_lock l t s)) as [lk first]. simpl in *.
    subst first. unfold wake.
    destruct l; unfold put; apply (quiet_set s i t); auto; quiet_side.
Qed.

Lemma step_quiet s input : quiet s → quiet (step app s input).
Proof.
  intros Hq. destruct input as [r w | i | | i]; simpl.
  - destruct Hq as (Hwait & Hheld & Htasks).
    split; [exact Hwait|]. split.
    + intros Hlocked. destruct (Hheld Hlocked) as (j & tj & Hj & Htj & Hcode).
      exists j, tj. split; [exact Hj|]. split; [|exact Hcode].
      now apply lookup_app_l_Some.
    + intros j tj Hj. simpl in Hj.
      apply lookup_snoc_Some in Hj as [[_ Hj] | [_ <-]];
        [exact (Htasks _ _ Hj)|].
      repeat split; simpl; auto; try discriminate.
      apply handler_events_script.
  - destruct (current s) eqn:Hcur; [exact Hq|].
    destruct (tasks s !! i) as [t|]; [|exact Hq].
    destruct (runnable (status t)); [|exact Hq].
    destruct Hq as (Hwait & Hheld & Htasks).
    split; [exact Hwait|]. split; [|exact Htasks].
    intros Hlocked. destruct (Hheld Hlocked) as (j & tj & Hj & _).
    rewrite Hcur in Hj. discriminate.
  - destruct (current s) as [i|] eqn:Hcur; [|exact Hq].
    destruct (tasks s !! i) as [t|] eqn:Hi; [|exact Hq].
    now apply exec_quiet.
  - destruct (tasks s !! i) as [t|] eqn:Hi; [|exact Hq].
    destruct (status t) eqn:Hst; try exact Hq.
    destruct Hq as (Hwait & Hheld & Htasks).
    destruct (Htasks _ _ Hi) as (Hscript & Hstatus & Hown_wait & Hown).
    split; [exact Hwait|]. split.
    + intros Hlocked. simpl in Hlocked.
      destruct (Hheld Hlocked) as (j & tj & Hj & Htj & Hcode).
      simpl. destruct (decide (j = i)) as [-> | Hne].
      * rewrite Hi in Htj. injection Htj as <-.
        eexists i, _. split; [exact Hj|]. split.
        -- apply list_lookup_insert_eq. now apply lookup_lt_Some in Hi.
        -- exact Hcode.
      * exists j, tj. split; [exact Hj|]. split; [|exact Hcode].
        now rewrite list_lookup_insert_ne.
    + intros j tj Hj. simpl in Hj.
      apply list_lookup_insert_Some in Hj as [(_ & <- & _) | [_ Hj]];
        [|exact (Htasks _ _ Hj)].
      repeat split; simpl; auto.
Qed.

Lemma run_quiet inputs s : quiet s → quiet (run app inputs s).
Proof.
  revert s. induction inputs as [|input rest IH]; intros s Hq; [exact Hq|].
  simpl. apply IH. now apply step_quiet.
Qed.

Lemma idle_quiet : quiet idle.
Proof.
  split; [reflexivity|]. split; [discriminate|].
  intros i t Hi. destruct i; discriminate.
Qed.

(** X19: no request ever waits for a lock.  In every state the server
    reaches, no task is queued on [gpu_lock] or on the lock of a
    /v1/images/generations request, and whenever the loop is between
    two tasks [gpu_lock] is free: a handler always finds its lock free
    and never gives the loop away while it holds it. *)
Theorem no_request_waits_for_a_lock (inputs : list Input) :
  let s := run app inputs idle in
  (∀ i t woken, tasks s !! i = Some t → status t ≠ LockWait woken) ∧
  waiters (gpu_lock s) = [] ∧
  (∀ i t, tasks s !! i = Some t → waiters (own_lock t) = []) ∧
  (current s = None → locked (gpu_lock s) = false).
Proof.
  intros s. destruct (run_quiet inputs idle idle_quiet)
    as (Hwait & Hheld & Htasks). fold s in Hwait, Hheld, Htasks.
  split; [|split; [exact Hwait|split]].
  - intros i t woken Hi. destruct (Htasks _ _ Hi) as (_ & Hst & _).
    apply Hst.
  - intros i t Hi. now destruct (Htasks _ _ Hi) as (_ & _ & Hw & _).
  - intros Hcur. destruct (locked (gpu_lock s)) eqn:Hl; [|reflexivity].
    destruct (Hheld eq_refl) as (j & tj & Hj & _). congruence.
Qed.

End QuietLoop.

(** * The further properties on concrete servers *)

Section OnTheDemoServer.
#[local] Existing Instance Demo.working.


(** X1 for the flag ENABLE_IMG2IMG, default on, in an empty
    environment. *)
Lemma unset_flag_takes_default_witness :
  get_env_bool ∅ "ENABLE_IMG2IMG" true = true.
Proof.
  apply (unset_flag_takes_default ∅ "ENABLE_IMG2IMG" true).
  apply lookup_empty.
Defined.

(** X4 for the identifier of sixteen zero bytes on a fresh server:
    picture 7 is written to output_images/<id>.png and answered as
    /output_images/<id>.png. *)
Lemma saved_image_is_behind_its_url_witness :
  let picture : @Image Demo.working := 7%nat in
  let id := Uuid.str (Uuid.uuid4 0) in
  id = first_id ∧
  (save_image_and_get_url picture id Demo.start).1
    = Return ("/output_images/" +:+ first_id +:+ ".png") ∧
  files (save_image_and_get_url picture id Demo.start).2
    = <["output_images/" +:+ first_id +:+ ".png" := png_bytes picture]>
        (files Demo.start).
Proof.
  intros picture id. split; [vm_compute; reflexivity|].
  exact (saved_image_is_behind_its_url picture (Uuid.uuid4 0) Demo.start).
Defined.

(** X8 on the server started with ENABLE_TXT2IMG=0: both text-to-image
    endpoints refuse, /img2img does not. *)
Lemma started_server_refuses_by_flag_witness :
  http_status
    (txt2img Demo.app_without_txt2img (Txt2ImgInput.of_body only_prompt)
       Demo.start).1 = 400 ∧
  http_status
    (generate_images Demo.app_without_txt2img Demo.three_urls Demo.start).1
    = 503 ∧
  http_status
    (img2img Demo.app_without_txt2img
       (Img2ImgInput.of_body (prompt_and_file first_id)) uploaded).1 ≠ 400.
Proof.
  assert (Hload :
    load_models (read_settings {[ "ENABLE_TXT2IMG" := "0" ]} true) None
      = inr (Demo.loaded (read_settings {[ "ENABLE_TXT2IMG" := "0" ]} true)))
    by (vm_compute; reflexivity).
  destruct (started_server_refuses_by_flag _ _ _ Demo.start Hload)
    as (Htxt & Hgen & _).
  destruct (started_server_refuses_by_flag _ _ _ uploaded Hload)
    as (_ & _ & Himg).
  split; [apply Htxt; reflexivity|].
  split; [apply Hgen; reflexivity|].
  intros Hrefused. apply Himg in Hrefused. discriminate Hrefused.
Defined.

(** X9 for an /img2img request after an upload: the directories are as
    the upload left them. *)
Lemma other_requests_write_no_file_witness :
  files (serve Demo.app (PostImg2Img (prompt_and_file first_id)) uploaded).2
    = files uploaded.
Proof.
  apply (other_requests_write_no_file Demo.app
           (PostImg2Img (prompt_and_file first_id)) uploaded).
  reflexivity.
Defined.

(** X12 on a fresh server: the pipeline returns picture 0, and the answer
    streams its PNG encoding under the first identifier. *)
Lemma txt2img_streams_the_first_picture_witness :
  ∃ content,
    (txt2img Demo.app (Txt2ImgInput.of_body only_prompt) Demo.start).1
      = Return (StreamingResponse content "image/png"
                  ("attachment; filename=" +:+ first_id +:+ ".png")) ∧
    concat content = png_bytes (0%nat : @Image Demo.working).
Proof.
  apply (txt2img_streams_the_first_picture Demo.app
           (Txt2ImgInput.of_body only_prompt) Demo.start
           ([0%nat] : list (@Image Demo.working)));
    vm_compute; reflexivity.
Defined.

(** X13 for the file /srv/private/photo.png, which is no upload: the
    request /img2img with the [file_id] "/srv/private/photo" hands its
    three bytes, decoded, to the pipeline. *)
Lemma absolute_file_id_leaves_the_uploads_witness :
  new_invocations
    (img2img Demo.app (Img2ImgInput.of_body Lab.absolute_request))
    Lab.with_foreign_file
  = [img2img_call (Img2ImgInput.of_body Lab.absolute_request)
       (3%nat : @Image Demo.working)].
Proof.
  apply (absolute_file_id_leaves_the_uploads Demo.app
           (Img2ImgInput.of_body Lab.absolute_request) Lab.with_foreign_file
           [x01; x02; x03]%byte (3%nat : @Image Demo.working));
    vm_compute; reflexivity.
Defined.

(** X14 for three pictures: three entries with one address, and the file
    at that address holds the third picture. *)
Lemma url_answer_keeps_the_last_picture_witness :
  ∃ entries,
    (generate_images Demo.app Demo.three_urls Demo.start).1
      = Return (DataResponse entries) ∧
    length entries = 3%nat ∧
    Forall (fun entry =>
      dict_get "url" entry
        = Some (JStr ("/output_images/" +:+ first_id +:+ ".png"))) entries ∧
    files (generate_images Demo.app Demo.three_urls Demo.start).2
      = <["output_images/" +:+ first_id +:+ ".png"
            := png_bytes (2%nat : @Image Demo.working)]> (files Demo.start).
Proof.
  exists (replicate 3
            [("id", JStr first_id); ("object", JStr "image");
             ("created", JInt 1700000000);
             ("url", JStr ("/output_images/" +:+ first_id +:+ ".png"))]).
  assert (Hanswer :
    (generate_images Demo.app Demo.three_urls Demo.start).1
      = Return (DataResponse (replicate 3
          [("id", JStr first_id); ("object", JStr "image");
           ("created", JInt 1700000000);
           ("url", JStr ("/output_images/" +:+ first_id +:+ ".png"))])))
    by (vm_compute; reflexivity).
  split; [exact Hanswer|].
  apply (url_answer_keeps_the_last_picture Demo.app Demo.three_urls
           Demo.start ([0; 1; 2]%nat : list (@Image Demo.working)));
    [reflexivity | vm_compute; reflexivity | exact Hanswer].
Defined.

(** X15 for the format "URL", which is not "url": two inline entries and
    no file. *)
Lemma inline_answer_follows_the_pictures_witness :
  (generate_images Demo.app Lab.shouting Demo.start).1 =
    Return (DataResponse
      [[("id", JStr first_id); ("object", JStr "image");
        ("created", JInt 1700000000);
        ("b64_json",
         JStr (b64encode (png_bytes (0%nat : @Image Demo.working))))];
       [("id", JStr first_id); ("object", JStr "image");
        ("created", JInt 1700000000);
        ("b64_json",
         JStr (b64encode (png_bytes (1%nat : @Image Demo.working))))]]) ∧
  files (generate_images Demo.app Lab.shouting Demo.start).2
    = files Demo.start.
Proof.
  apply (inline_answer_follows_the_pictures Demo.app Lab.shouting Demo.start
           ([0; 1]%nat : list (@Image Demo.working)));
    [vm_compute; reflexivity | discriminate | vm_compute; reflexivity].
Defined.

(** X18 for an upload followed by four other requests, one of them
    another upload and one an answer with addresses. *)
Lemma no_request_removes_a_file_witness :
  is_Some (files (serve_all Demo.app in_between uploaded)
             !! ("uploaded_images/" +:+ first_id +:+ ".png")).
Proof.
  apply (no_request_removes_a_file Demo.app in_between uploaded).
  vm_compute. eauto.
Defined.

End OnTheDemoServer.

Section OnAPickyServer.
#[local] Existing Instance Lab.picky.

(** X11 after the upload of an empty file, which the decoder refuses. *)
Lemma unreadable_upload_is_unhandled_witness :
  let w := (upload_image [] Demo.start).2 in
  http_status
    (img2img Demo.app (Img2ImgInput.of_body (prompt_and_file first_id)) w).1
    = 500 ∧
  http_error_body
    (img2img Demo.app (Img2ImgInput.of_body (prompt_and_file first_id)) w).1
    = None.
Proof.
  destruct (unreadable_upload_is_unhandled Demo.app
              (Img2ImgInput.of_body (prompt_and_file first_id))
              (upload_image [] Demo.start).2 [] "cannot identify image file")
    as (_ & Hstatus & Hbody & _);
    [vm_compute; reflexivity | vm_compute; reflexivity | reflexivity |].
  split; assumption.
Defined.

(** X16 when the second write fails: two pictures are asked for, the
    answer is 500, and a file is left behind. *)
Lemma failed_url_answer_leaves_a_file_witness :
  (generate_images Demo.app Lab.two_urls Demo.start).1
    = Raise (HTTPException 500 "Internal server error.") ∧
  is_Some (files (generate_images Demo.app Lab.two_urls Demo.start).2
             !! ("output_images/" +:+ first_id +:+ ".png")).
Proof.
  apply (failed_url_answer_leaves_a_file Demo.app Lab.two_urls Demo.start
           (0%nat : @Image Lab.picky) (1%nat : @Image Lab.picky) [] "Too many open files");
    vm_compute; reflexivity.
Defined.

End OnAPickyServer.

Section OnAnEmptyHandedPipeline.
#[local] Existing Instance Lab.empty_handed.

(** A pipeline that returns no picture makes /txt2img answer 500 with
    Python's message for [images[0]] of an empty list. *)
Example no_picture_is_500 :
  (txt2img Demo.app (Txt2ImgInput.of_body only_prompt) Demo.start).1
    = Raise (HTTPException 500 "list index out of range").
Proof. vm_compute. reflexivity. Qed.

End OnAnEmptyHandedPipeline.
